(** * TradingRobot: the streaming bar buffer and the robot facade

    A shallow embedding of [robot/data_control/frame_client.py] and of the
    trading, subscription and scheduling methods of [robot/fx_robot.py],
    followed by the properties of the specification that concern them.

    Python objects are mutated in place; here every method is a function on
    an explicit state.  A raised exception keeps whatever mutation happened
    before it, so outcomes carry the state on both branches.  Series hold
    IEEE binary64 values ([PrimFloat]); pandas' missing value is NaN. *)

From Stdlib Require Import ZArith List Ascii String Bool Lia Floats.
Import ListNotations.

(** ** Outcomes of a method call *)

Inductive Exn : Type :=
| KeyError (label : string)
| ValueError
| TypeError
| AttributeError
| RuntimeError
| BrokerError (code : Z).

Inductive Outcome (St A : Type) : Type :=
| Return (a : A) (st : St)
| Raise (e : Exn) (st : St).

Arguments Return {St A} a st.
Arguments Raise {St A} e st.

Definition M (St A : Type) : Type := St -> Outcome St A.

Definition ret {St A} (a : A) : M St A := fun st => Return a st.

Definition raise {St A} (e : Exn) : M St A := fun st => Raise e st.

Definition bind {St A B} (m : M St A) (k : A -> M St B) : M St B :=
  fun st =>
    match m st with
    | Return a st' => k a st'
    | Raise e st' => Raise e st'
    end.

Definition state_of {St A} (o : Outcome St A) : St :=
  match o with Return _ st => st | Raise _ st => st end.

Declare Scope py_scope.
Delimit Scope py_scope with py.
Notation "x <- m ;; k" := (bind m (fun x => k))
  (at level 100, m at next level, right associativity) : py_scope.
Notation "m ;;; k" := (bind m (fun _ => k))
  (at level 100, right associativity) : py_scope.

(** ** The pandas operations the source calls

    The frame is column oriented, as in pandas: an index of timestamps
    (nanoseconds since the epoch) and named columns of equal length.  Each
    operation below follows the documented behaviour of the pandas call of
    the same name, restricted to the arguments the source passes. *)

Module Pandas.

Definition Series : Type := list float.

Record DataFrame : Type := mkDataFrame {
  index : list Z;
  columns : list (string * Series)
}.

(** [pd.DataFrame()] *)
Definition new_frame : DataFrame := mkDataFrame [] [].

(** [len(df)] *)
Definition len (d : DataFrame) : nat := List.length (index d).

(** [df.empty]: true when either axis has length zero. *)
Definition empty (d : DataFrame) : bool :=
  match index d, columns d with
  | [], _ => true
  | _, [] => true
  | _, _ => false
  end.

Definition column_names (d : DataFrame) : list string := map fst (columns d).

Definition has_column (c : string) (d : DataFrame) : bool :=
  existsb (String.eqb c) (column_names d).

(** [df[c]] as an r-value; a missing label is a [KeyError]. *)
Fixpoint lookup (c : string) (cols : list (string * Series)) : option Series :=
  match cols with
  | [] => None
  | (n, s) :: rest => if String.eqb c n then Some s else lookup c rest
  end.

Definition getitem (c : string) (d : DataFrame) : option Series :=
  lookup c (columns d).

(** [df[c] = s]: an existing column is replaced where it stands, a new one
    goes last. *)
Fixpoint assign (c : string) (s : Series) (cols : list (string * Series))
  : list (string * Series) :=
  match cols with
  | [] => [(c, s)]
  | (n, old) :: rest =>
      if String.eqb c n then (n, s) :: rest else (n, old) :: assign c s rest
  end.

Definition setitem (c : string) (s : Series) (d : DataFrame) : DataFrame :=
  mkDataFrame (index d) (assign c s (columns d)).

Definition mem (c : string) (l : list string) : bool := existsb (String.eqb c) l.

(** [df.drop(labels, axis=1, inplace=True)]: every label must exist. *)
Definition drop (labels : list string) (d : DataFrame) : Exn + DataFrame :=
  match filter (fun l => negb (has_column l d)) labels with
  | l :: _ => inl (KeyError l)
  | [] =>
      inr (mkDataFrame (index d)
             (filter (fun c => negb (mem (fst c) labels)) (columns d)))
  end.

Definition nans (n : nat) : Series := repeat nan n.

(** [df.append(other)]: rows of [other] go after the rows of [df]; the
    columns are the union, [df]'s first, and a column one side lacks is
    filled with NaN on that side. *)
Definition append (d other : DataFrame) : DataFrame :=
  let fresh :=
    filter (fun c => negb (has_column (fst c) d)) (columns other) in
  mkDataFrame
    (index d ++ index other)
    (map (fun c =>
            (fst c,
             snd c ++ match getitem (fst c) other with
                      | Some s => s
                      | None => nans (len other)
                      end)) (columns d)
     ++ map (fun c => (fst c, nans (len d) ++ snd c)) fresh).

(** [df.iloc[k:]] for [k >= 0] *)
Definition iloc_from (k : nat) (d : DataFrame) : DataFrame :=
  mkDataFrame (skipn k (index d))
              (map (fun c => (fst c, skipn k (snd c))) (columns d)).

(** *** Element-wise arithmetic on series sharing one index *)

Definition notna (x : float) : bool := negb (is_nan x).

Fixpoint zip_with (f : float -> float -> float) (a b : Series) : Series :=
  match a, b with
  | x :: a', y :: b' => f x y :: zip_with f a' b'
  | _, _ => []
  end.

Definition s_add : Series -> Series -> Series := zip_with PrimFloat.add.
Definition s_sub : Series -> Series -> Series := zip_with PrimFloat.sub.
Definition s_div : Series -> Series -> Series := zip_with PrimFloat.div.
Definition s_scale (k : float) (s : Series) : Series := map (PrimFloat.mul k) s.
Definition s_abs (s : Series) : Series := map PrimFloat.abs s.

(** [s.shift(1)] *)
Definition shift1 (s : Series) : Series :=
  match s with
  | [] => []
  | _ :: _ => nan :: removelast s
  end.

(** [max(axis=1)] over three columns; NaN is skipped. *)
Definition max_skipna (a b : float) : float :=
  if is_nan a then b
  else if is_nan b then a
  else if PrimFloat.ltb a b then b else a.

Fixpoint row_max3 (a b c : Series) : Series :=
  match a, b, c with
  | x :: a', y :: b', z :: c' =>
      max_skipna (max_skipna x y) z :: row_max3 a' b' c'
  | _, _, _ => []
  end.

(** *** Rolling windows *)

Definition of_nat (n : nat) : float :=
  PrimFloat.of_uint63 (Uint63.of_Z (Z.of_nat n)).

Definition of_Z (z : Z) : float :=
  if (z <? 0)%Z then PrimFloat.opp (PrimFloat.of_uint63 (Uint63.of_Z (- z)))
  else PrimFloat.of_uint63 (Uint63.of_Z z).

Definition fsum (l : list float) : float := fold_left PrimFloat.add l 0%float.

(** The [period] values ending at position [i]. *)
Definition window (period i : nat) (s : Series) : list float :=
  skipn (S i - period) (firstn (S i) s).

(** [rolling(w)]: the window must not be negative. *)
Definition rolling (w : Z) : Exn + nat :=
  if (w <? 0)%Z then inl ValueError else inr (Z.to_nat w).

(** [rolling(period).mean()], with [min_periods = period]. *)
Definition mean_at (period : nat) (s : Series) (i : nat) : float :=
  let obs := filter notna (window period i s) in
  let nobs := List.length obs in
  if (period <=? nobs)%nat && (0 <? nobs)%nat
  then (fsum obs / of_nat nobs)%float else nan.

Definition rolling_mean (period : nat) (s : Series) : Series :=
  map (mean_at period s) (seq 0 (List.length s)).

(** [rolling(period).std()]: the sample deviation ([ddof = 1]). *)
Definition std_at (period : nat) (s : Series) (i : nat) : float :=
  let obs := filter notna (window period i s) in
  let nobs := List.length obs in
  if (period <=? nobs)%nat && (1 <? nobs)%nat
  then
    let m := (fsum obs / of_nat nobs)%float in
    let sq := map (fun x => ((x - m) * (x - m))%float) obs in
    PrimFloat.sqrt (fsum sq / of_nat (nobs - 1))%float
  else nan.

Definition rolling_std (period : nat) (s : Series) : Series :=
  map (std_at period s) (seq 0 (List.length s)).

(** *** Exponentially weighted mean

    [s.ewm(span=span, min_periods=minp).mean()] with pandas' defaults
    ([adjust=True], [ignore_na=False]): the running state is the weighted
    average so far, the weight of the past and the number of observations. *)

Record EwmState : Type := mkEwm {
  weighted : float;
  old_wt : float;
  nobs : Z
}.

Definition ewm_emit (minp : Z) (st : EwmState) : float :=
  if (minp <=? nobs st)%Z then weighted st else nan.

Definition ewm_step (alpha : float) (st : EwmState) (cur : float) : EwmState :=
  let obs := notna cur in
  let n := (nobs st + (if obs then 1 else 0))%Z in
  if notna (weighted st) then
    let w := (old_wt st * (1 - alpha))%float in
    if obs then
      let avg :=
        if PrimFloat.eqb (weighted st) cur then weighted st
        else ((w * weighted st + 1 * cur) / (w + 1))%float in
      mkEwm avg (w + 1)%float n
    else mkEwm (weighted st) w n
  else if obs then mkEwm cur (old_wt st) n
  else mkEwm (weighted st) (old_wt st) n.

Fixpoint ewm_run (alpha : float) (minp : Z) (st : EwmState) (s : Series)
  : Series :=
  match s with
  | [] => []
  | cur :: rest =>
      let st' := ewm_step alpha st cur in
      ewm_emit minp st' :: ewm_run alpha minp st' rest
  end.

Definition ewm_mean (span min_periods : Z) (s : Series) : Exn + Series :=
  if (span <? 1)%Z then inl ValueError
  else
    let com := ((of_Z span - 1) / 2)%float in
    let alpha := (1 / (1 + com))%float in
    let minp := Z.max min_periods 1 in
    match s with
    | [] => inr []
    | x :: rest =>
        let st := mkEwm x 1%float (if notna x then 1 else 0)%Z in
        inr (ewm_emit minp st :: ewm_run alpha minp st rest)
    end.

(** *** Slices from the end and column renaming *)

(** Where a slice [start:] begins on an axis of [length] rows: a negative
    [start] counts from the end and is clipped at the first row. *)
Definition slice_start (start : Z) (length : nat) : nat :=
  if (start <? 0)%Z then Z.to_nat (Z.max 0 (Z.of_nat length + start))
  else Z.to_nat start.

(** [df.iloc[-n:]] *)
Definition iloc_tail (n : Z) (d : DataFrame) : DataFrame :=
  iloc_from (slice_start (- n) (len d)) d.

(** The new label of a column under [rename(columns=mapping)]: labels the
    mapping does not mention stay. *)
Fixpoint rename_label (mapping : list (string * string)) (c : string)
  : string :=
  match mapping with
  | [] => c
  | (old, new) :: rest =>
      if String.eqb c old then new else rename_label rest c
  end.

(** [df.rename(columns=mapping, inplace=True)] *)
Definition rename_columns (mapping : list (string * string)) (d : DataFrame)
  : DataFrame :=
  mkDataFrame (index d)
    (map (fun c => (rename_label mapping (fst c), snd c)) (columns d)).

(** *** Tables with text columns

    The offers table has a text column next to the numeric ones. *)

Inductive Cell : Type :=
| CStr (s : string)
| CNum (x : float).

Record Table : Type := mkTable {
  row_labels : list Z;
  fields : list (string * list Cell)
}.

Fixpoint field (c : string) (fs : list (string * list Cell))
  : option (list Cell) :=
  match fs with
  | [] => None
  | (n, v) :: rest => if String.eqb c n then Some v else field c rest
  end.

(** [column.isin(values)] *)
Definition isin (values : list string) (column : list Cell) : list bool :=
  map (fun cell =>
         match cell with
         | CStr s => mem s values
         | CNum _ => false
         end) column.

(** Rows picked by a boolean mask. *)
Fixpoint pick {A : Type} (mask : list bool) (l : list A) : list A :=
  match mask, l with
  | b :: mask', x :: l' => if b then x :: pick mask' l' else pick mask' l'
  | _, _ => []
  end.

(** [table[mask]] *)
Definition select_rows (mask : list bool) (t : Table) : Table :=
  mkTable (pick mask (row_labels t))
          (map (fun f => (fst f, pick mask (snd f))) (fields t)).

(** [table[names]]: the named columns in the order asked; a missing name is
    a [KeyError]. *)
Fixpoint project (names : list string) (fs : list (string * list Cell))
  : Exn + list (string * list Cell) :=
  match names with
  | [] => inr []
  | n :: rest =>
      match field n fs with
      | None => inl (KeyError n)
      | Some v =>
          match project rest fs with
          | inl e => inl e
          | inr picked => inr ((n, v) :: picked)
          end
      end
  end.

Definition select_columns (names : list string) (t : Table) : Exn + Table :=
  match project names (fields t) with
  | inl e => inl e
  | inr fs => inr (mkTable (row_labels t) fs)
  end.

(** [s.split(',')]: always at least one piece. *)
Fixpoint split_commas (s : string) : list string :=
  match s with
  | EmptyString => [EmptyString]
  | String c rest =>
      if Ascii.eqb c ","%char then EmptyString :: split_commas rest
      else
        match split_commas rest with
        | [] => [String c EmptyString]
        | piece :: pieces => String c piece :: pieces
        end
  end.

End Pandas.

(** ** [FrameClient] *)

Module FrameClient.
Import Pandas.
Local Open Scope py_scope.
Local Open Scope string_scope.

(** The bound methods stored under ['func']. *)
Inductive Func : Type := Fmacd | Fatr | Fbbands.

(** The keyword arguments stored under ['args']: the [locals()] of the
    registering call without [self], so the registry key travels with them. *)
Inductive Kwargs : Type :=
| MacdArgs (fast slow macd_period : Z) (name : string)
| AtrArgs (period : Z) (name : string)
| BbandsArgs (period : Z) (std : float) (name : string).

Record Indicator : Type := mkIndicator {
  args : Kwargs;
  func : Func
}.

Record FrameClient : Type := mkFrameClient {
  df : DataFrame;
  max_size : Z;
  indicators : list (string * Indicator)
}.

(** [FrameClient(max_size)] *)
Definition init (max_size : Z) : FrameClient :=
  mkFrameClient new_frame max_size [].

(** [d[k] = v] on a dict: a present key keeps its place, a new key goes
    last (insertion order is the iteration order). *)
Fixpoint dict_set {V : Type} (k : string) (v : V) (d : list (string * V))
  : list (string * V) :=
  match d with
  | [] => [(k, v)]
  | (k', v') :: rest =>
      if String.eqb k k' then (k', v) :: rest else (k', v') :: dict_set k v rest
  end.

Definition keys {V : Type} (d : list (string * V)) : list string := map fst d.

Definition set_df (d : DataFrame) (fc : FrameClient) : FrameClient :=
  mkFrameClient d (max_size fc) (indicators fc).

(** Accesses to [self.df] from inside a method. *)
Definition df_getitem (c : string) : M FrameClient Series :=
  fun fc =>
    match getitem c (df fc) with
    | Some s => Return s fc
    | None => Raise (KeyError c) fc
    end.

Definition df_setitem (c : string) (s : Series) : M FrameClient unit :=
  fun fc => Return tt (set_df (setitem c s (df fc)) fc).

Definition df_drop (labels : list string) : M FrameClient unit :=
  fun fc =>
    match drop labels (df fc) with
    | inr d => Return tt (set_df d fc)
    | inl e => Raise e fc
    end.

Definition lift {A : Type} (r : Exn + A) : M FrameClient A :=
  fun fc => match r with inr a => Return a fc | inl e => Raise e fc end.

Definition _save_indicator (name : string) (f : Func) (a : Kwargs)
  : M FrameClient bool :=
  fun fc =>
    Return (negb (empty (df fc)))
           (mkFrameClient (df fc) (max_size fc)
              (dict_set name (mkIndicator a f) (indicators fc))).

Definition macd (fast slow macd_period : Z) (name : string)
  : M FrameClient unit :=
  go <- _save_indicator name Fmacd (MacdArgs fast slow macd_period name) ;;
  if negb go then ret tt else
  close <- df_getitem "close" ;;
  fast_ema <- lift (ewm_mean fast fast close) ;;
  df_setitem "macd_fast" fast_ema ;;;
  close <- df_getitem "close" ;;
  slow_ema <- lift (ewm_mean slow slow close) ;;
  df_setitem "macd_slow" slow_ema ;;;
  a <- df_getitem "macd_fast" ;;
  b <- df_getitem "macd_slow" ;;
  df_setitem "macd_diff" (s_sub a b) ;;;
  diff <- df_getitem "macd_diff" ;;
  signal <- lift (ewm_mean macd_period macd_period diff) ;;
  df_setitem "macd" signal ;;;
  df_drop ["macd_fast"; "macd_slow"; "macd_diff"].

Definition atr (period : Z) (name : string) : M FrameClient unit :=
  go <- _save_indicator name Fatr (AtrArgs period name) ;;
  if negb go then ret tt else
  high <- df_getitem "high" ;;
  low <- df_getitem "low" ;;
  df_setitem "tr_hl" (s_abs (s_sub high low)) ;;;
  high <- df_getitem "high" ;;
  close <- df_getitem "close" ;;
  df_setitem "tr_hp" (s_abs (s_sub high (shift1 close))) ;;;
  low <- df_getitem "low" ;;
  close <- df_getitem "close" ;;
  df_setitem "tr_lp" (s_abs (s_sub low (shift1 close))) ;;;
  hl <- df_getitem "tr_hl" ;;
  hp <- df_getitem "tr_hp" ;;
  lp <- df_getitem "tr_lp" ;;
  df_setitem "tr" (row_max3 hl hp lp) ;;;
  tr <- df_getitem "tr" ;;
  w <- lift (rolling period) ;;
  df_setitem "atr" (rolling_mean w tr) ;;;
  df_drop ["tr_hl"; "tr_hp"; "tr_lp"; "tr"].

Definition bbands (period : Z) (std : float) (name : string)
  : M FrameClient unit :=
  go <- _save_indicator name Fbbands (BbandsArgs period std name) ;;
  if negb go then ret tt else
  close <- df_getitem "close" ;;
  w <- lift (rolling period) ;;
  df_setitem "bbands_ma" (rolling_mean w close) ;;;
  ma <- df_getitem "bbands_ma" ;;
  w <- lift (rolling period) ;;
  df_setitem "bbands_std" (rolling_std w ma) ;;;
  ma <- df_getitem "bbands_ma" ;;
  sd <- df_getitem "bbands_std" ;;
  df_setitem "bbands_up" (s_add ma (s_scale std sd)) ;;;
  ma <- df_getitem "bbands_ma" ;;
  sd <- df_getitem "bbands_std" ;;
  df_setitem "bbands_dn" (s_sub ma (s_scale std sd)) ;;;
  close <- df_getitem "close" ;;
  dn <- df_getitem "bbands_dn" ;;
  up <- df_getitem "bbands_up" ;;
  dn' <- df_getitem "bbands_dn" ;;
  df_setitem "bbands_percent" (s_div (s_sub close dn) (s_sub up dn')) ;;;
  df_drop ["bbands_ma"; "bbands_std"; "bbands_up"; "bbands_dn"].

(** Calling the stored ['func'] with the stored ['args'] as keywords: the
    keywords must be the parameters of the method. *)
Definition call (ind : Indicator) : M FrameClient unit :=
  match func ind, args ind with
  | Fmacd, MacdArgs fast slow macd_period name => macd fast slow macd_period name
  | Fatr, AtrArgs period name => atr period name
  | Fbbands, BbandsArgs period std name => bbands period std name
  | _, _ => raise TypeError
  end.

(** [for indicator in self.indicators.values(): ...] walks the live dict
    by position; a dict whose size changed since the loop began raises at
    the next step. *)
Fixpoint update_loop (fuel pos size : nat) : M FrameClient unit :=
  match fuel with
  | O => ret tt
  | S fuel' =>
      fun fc =>
        if negb (List.length (indicators fc) =? size)%nat
        then Raise RuntimeError fc
        else
          match nth_error (indicators fc) pos with
          | None => Return tt fc
          | Some (_, ind) =>
              (call ind ;;; update_loop fuel' (S pos) size) fc
          end
  end.

Definition update : M FrameClient unit :=
  fun fc =>
    let size := List.length (indicators fc) in
    update_loop (S size) 0 size fc.

(** The [while] loop of [add_rows]: [i] advances while the buffer's last
    timestamp is not [rows.index[i]]. *)
Fixpoint scan (last_ts : Z) (rows_index : list Z) (i : nat) : nat :=
  match rows_index with
  | [] => i
  | t :: rest => if (last_ts =? t)%Z then i else scan last_ts rest (S i)
  end.

(** The last two statements of [add_rows]: drop the oldest rows beyond
    [max_size]. *)
Definition evict (fc : FrameClient) : FrameClient :=
  let rows_drop := (Z.of_nat (len (df fc)) - max_size fc)%Z in
  if (0 <? rows_drop)%Z
  then set_df (iloc_from (Z.to_nat rows_drop) (df fc)) fc
  else fc.

Definition add_rows (rows : DataFrame) (fc : FrameClient) : FrameClient :=
  let i :=
    if negb (empty (df fc))
    then scan (List.last (index (df fc)) 0%Z) (index rows) 0
    else 0%nat in
  let fc' :=
    if (i =? len rows)%nat || (i =? 0)%nat
    then set_df (append (df fc) rows) fc
    else set_df (append (df fc) (iloc_from (S i) rows)) fc in
  evict fc'.

(** [get_last_bars(n)]: a slice of the frame; the client is left alone. *)
Definition get_last_bars (n : Z) (fc : FrameClient) : DataFrame :=
  iloc_tail n (df fc).

End FrameClient.

(** ** [FxRobot]

    The broker connection, the clock and [time.sleep] are the outside world:
    the broker answers a call as a function of the calls made before it, the
    clock is read by position, and the world records every call made and
    every duration slept.  Logging is left out. *)

Module FxRobot.
Local Open Scope py_scope.
Local Open Scope string_scope.

(** The broker's acknowledgment, exposing [get_orderId()]. *)
Record Order : Type := mkOrder { orderId : Z }.

(** What a broker call may hand back. *)
Inductive Value : Type :=
| VNone
| VBool (b : bool)
| VOrder (o : Order).

(** Keyword values of a broker request. *)
Inductive Arg : Type :=
| AStr (s : string)
| ABool (b : bool)
| AInt (z : Z).

Definition FxcmArgs : Type := list (string * Arg).

Inductive ApiCall : Type :=
| create_entry_order (kw : FxcmArgs)
| api_open_trade (kw : FxcmArgs)
| api_subscribe_instrument (symbol : string)
| api_unsubscribe_instrument (symbol : string).

Inductive Reply : Type :=
| Gives (v : Value)
| Fails (e : Exn).

Record World : Type := mkWorld {
  broker : list ApiCall -> ApiCall -> Reply;
  clock : nat -> Z;
  api_log : list ApiCall;
  clock_reads : nat;
  slept : list float
}.

(** [self.api.<method>(...)] *)
Definition api (c : ApiCall) : M World Value :=
  fun w =>
    let w' := mkWorld (broker w) (clock w) (api_log w ++ [c])
                      (clock_reads w) (slept w) in
    match broker w (api_log w) c with
    | Gives v => Return v w'
    | Fails e => Raise e w'
    end.

(** Modelled from the spec: [Trade] of [robot/common.py], which is not among
    the sources: symbol, direction, size, order type, and the broker
    parameter bag derived from these fields. *)
Record Trade : Type := mkTrade {
  symbol : string;
  is_buy : bool;
  amount : Z;
  order_type : string
}.

Definition get_order_type (t : Trade) : string := order_type t.

Definition get_fxcm_args (t : Trade) : FxcmArgs :=
  [("symbol", AStr (symbol t)); ("is_buy", ABool (is_buy t));
   ("amount", AInt (amount t)); ("order_type", AStr (order_type t))].

(** Modelled from the spec: [Portfolio] of [robot/common.py], which is not
    among the sources: an identifier, the allowed symbols and an ordered
    collection of orders; [add_order] appends and nothing is ever removed. *)
Record Portfolio : Type := mkPortfolio {
  id : Z;
  symbols : list string;
  orders : list Value
}.

Definition add_order (o : Value) (p : Portfolio) : Portfolio :=
  mkPortfolio (id p) (symbols p) (orders p ++ [o]).

(** Truth value of an object in [if order]. *)
Definition truthy (v : Value) : bool :=
  match v with
  | VNone => false
  | VBool b => b
  | VOrder _ => true
  end.

(** [order.get_orderId()] *)
Definition get_orderId (v : Value) : M World Z :=
  match v with
  | VOrder o => ret (orderId o)
  | _ => raise AttributeError
  end.

(** [open_trade(trade, portfolio)]: the portfolio object is mutated, so the
    call returns it next to the id. *)
Definition open_trade (trade : Trade) (portfolio : Portfolio)
  : M World (option Z * Portfolio) :=
  order <- (if String.eqb (get_order_type trade) "Entry"
            then api (create_entry_order (get_fxcm_args trade))
            else api (api_open_trade (get_fxcm_args trade))) ;;
  oid <- (if truthy order
          then (i <- get_orderId order ;; ret (Some i))
          else ret None) ;;
  ret (oid, add_order order portfolio).

(** The argument of the subscription methods: one [str] or a list. *)
Inductive Symbols : Type :=
| Str (s : string)
| Seq (l : list string).

(** [list(s)] on a [str]: its characters, each a one-character [str]. *)
Definition list_of_str (s : string) : list string :=
  map (fun c => String c EmptyString) (list_ascii_of_string s).

(** [if type(symbols) == str: symbols = list(symbols)] *)
Definition as_list (s : Symbols) : list string :=
  match s with
  | Str s => list_of_str s
  | Seq l => l
  end.

(** [res[idx] = v]; the index is always in range here. *)
Fixpoint list_set {A : Type} (idx : nat) (v : A) (l : list A) : list A :=
  match l, idx with
  | [], _ => []
  | _ :: rest, O => v :: rest
  | x :: rest, S i => x :: list_set i v rest
  end.

(** [for idx, symbol in enumerate(symbols): res[idx] = call(symbol)] *)
Fixpoint each_symbol (request : string -> ApiCall) (idx : nat)
  (todo : list string) (res : list Value) : M World (list Value) :=
  match todo with
  | [] => ret res
  | sym :: rest =>
      v <- api (request sym) ;;
      each_symbol request (S idx) rest (list_set idx v res)
  end.

Definition subscribe_instrument (s : Symbols) : M World (list Value) :=
  let l := as_list s in
  each_symbol api_subscribe_instrument 0 l (repeat VNone (List.length l)).

Definition unsubscribe_instrument (s : Symbols) : M World (list Value) :=
  let l := as_list s in
  each_symbol api_unsubscribe_instrument 0 l (repeat VNone (List.length l)).











End FxRobot.

(** ** [FxRobot]: data queries, closing and market data

    These methods receive tables from the broker, so their world has
    replies of its own; as before the broker answers as a function of the
    requests made so far and every request is recorded. *)

Module FxRobotData.
Import Pandas.
Local Open Scope py_scope.
Local Open Scope string_scope.

Definition Kw : Type := list (string * FxRobot.Arg).

Inductive Request : Type :=
| get_candles (symbol period : string) (number : Z) (columns : list string)
| api_get_offers
| api_close_trade (trade_id : FxRobot.Arg) (close_args : Kw)
| api_subscribe_market_data (symbol : string) (callbacks : list string)
| api_unsubscribe_market_data (symbol : string).

Inductive Response : Type :=
| Nothing
| Candles (bars : DataFrame)
| Offers (table : Table).

Record Session : Type := mkSession {
  server : list Request -> Request -> Exn + Response;
  sent : list Request
}.

(** [self.api.<method>(...)] *)
Definition ask (r : Request) : M Session Response :=
  fun w =>
    let w' := mkSession (server w) (sent w ++ [r]) in
    match server w (sent w) r with
    | inr v => Return v w'
    | inl e => Raise e w'
    end.

(** The renaming of [get_last_bar]. *)
Definition bar_columns : list (string * string) :=
  [("bidopen", "open"); ("bidclose", "close"); ("bidhigh", "high");
   ("bidlow", "low"); ("tickqty", "volume")].

(** [get_last_bar(symbol, n, columns, period)]; [rename] needs a frame. *)
Definition get_last_bar (symbol : string) (n : Z) (columns : list string)
  (period : string) : M Session DataFrame :=
  reply <- ask (get_candles symbol period n columns) ;;
  match reply with
  | Candles bars => ret (rename_columns bar_columns bars)
  | _ => raise AttributeError
  end.

(** [position[key]] on a position record. *)
Fixpoint position_get (key : string) (position : Kw) : option FxRobot.Arg :=
  match position with
  | [] => None
  | (k, v) :: rest => if String.eqb key k then Some v else position_get key rest
  end.

Definition getitem_or_raise (key : string) (position : Kw)
  : M Session FxRobot.Arg :=
  match position_get key position with
  | Some v => ret v
  | None => raise (KeyError key)
  end.

(** [close_trade(position, portfolio, **close_args)]: the portfolio is
    only named in the log line. *)
Definition close_trade (position : Kw) (portfolio : FxRobot.Portfolio)
  (close_args : Kw) : M Session unit :=
  currency <- getitem_or_raise "currency" position ;;
  trade_id <- getitem_or_raise "tradeId" position ;;
  _ <- ask (api_close_trade trade_id close_args) ;;
  ret tt.

(** The [symbols] and [columns] arguments of [get_offers]. *)
Inductive Selector : Type :=
| SelNone
| SelStr (s : string)
| SelList (l : list string).

(** [if x is None: x = 'all' elif type(x) == str: x = x.split(',')] *)
Definition normalize (x : Selector) : Selector :=
  match x with
  | SelNone => SelStr "all"
  | SelStr s => SelList (split_commas s)
  | SelList l => SelList l
  end.

(** [data[data['currency'].isin(symbols)]] *)
Definition only_currencies (symbols : list string) (data : Table)
  : Exn + Table :=
  match field "currency" (fields data) with
  | None => inl (KeyError "currency")
  | Some column => inr (select_rows (isin symbols column) data)
  end.

Definition lift_exn {A : Type} (r : Exn + A) : M Session A :=
  fun w => match r with inr a => Return a w | inl e => Raise e w end.

(** What a reply is when it is subscripted: a table, the candles as a
    table of numbers, or nothing that can be subscripted. *)
Definition as_table (reply : Response) : Exn + Table :=
  match reply with
  | Offers t => inr t
  | Candles d =>
      inr (mkTable (index d)
             (map (fun c => (fst c, map CNum (snd c))) (columns d)))
  | Nothing => inl TypeError
  end.

(** [get_offers(symbols, columns)]: a reply is subscripted only under a
    selection and is handed back as it came otherwise. *)
Definition get_offers (symbols columns : Selector) : M Session Response :=
  let symbols := normalize symbols in
  let columns := normalize columns in
  data <- ask api_get_offers ;;
  data <- match symbols with
          | SelList l =>
              t <- lift_exn (as_table data) ;;
              kept <- lift_exn (only_currencies l t) ;;
              ret (Offers kept)
          | _ => ret data
          end ;;
  data <- match columns with
          | SelList l =>
              t <- lift_exn (as_table data) ;;
              kept <- lift_exn (select_columns l t) ;;
              ret (Offers kept)
          | _ => ret data
          end ;;
  ret data.

(** [for symbol in symbols: ...] of the market-data methods. *)
Fixpoint for_each (request : string -> Request) (todo : list string)
  : M Session unit :=
  match todo with
  | [] => ret tt
  | sym :: rest => _ <- ask (request sym) ;; for_each request rest
  end.

Definition subscribe_market_data (symbols : FxRobot.Symbols)
  (callbacks : list string) : M Session unit :=
  for_each (fun sym => api_subscribe_market_data sym callbacks)
           (FxRobot.as_list symbols).

Definition unsubscribe_market_data (symbols : FxRobot.Symbols)
  : M Session unit :=
  for_each api_unsubscribe_market_data (FxRobot.as_list symbols).

End FxRobotData.

(** * Properties *)

Import Pandas FrameClient FxRobot.
Local Open Scope string_scope.
Local Open Scope list_scope.
Local Open Scope Z_scope.

(** ** Vocabulary of the statements *)

(** *** The buffer *)

(** Timestamps strictly increasing, hence unique. *)
Fixpoint ascending (l : list Z) : Prop :=
  match l with
  | [] => True
  | x :: rest =>
      match rest with
      | [] => True
      | y :: _ => x < y
      end /\ ascending rest
  end.

(** The leading [k] bars of [r] are the trailing [k] bars of [b]. *)
Definition overlap (k : nat) (b r : list Z) : Prop :=
  (0 < k)%nat /\ (k <= List.length r)%nat /\ (k <= List.length b)%nat /\
  firstn k r = skipn (List.length b - k) b.

(** Position of the first element satisfying [p], the length when none
    does. *)
Fixpoint first_index (p : Z -> bool) (l : list Z) : nat :=
  match l with
  | [] => O
  | t :: rest => if p t then O else S (first_index p rest)
  end.

(** [add_rows] as the specification words it: [i] is the index of the
    first bar whose timestamp DIFFERS from the buffer's last timestamp. *)
Definition add_rows_first_differing (rows : DataFrame) (fc : FrameClient)
  : FrameClient :=
  let last_ts := List.last (index (df fc)) 0 in
  let i := first_index (fun t => negb (last_ts =? t)) (index rows) in
  evict (set_df (append (df fc)
                   (if (i =? len rows)%nat || (i =? 0)%nat
                    then rows else iloc_from (S i) rows)) fc).

(** A run of [add_rows] calls, oldest first. *)
Definition add_rows_all (calls : list DataFrame) (fc : FrameClient)
  : FrameClient :=
  fold_left (fun st rows => add_rows rows st) calls fc.

(** Every column is as long as the index. *)
Definition frame_ok (d : DataFrame) : Prop :=
  Forall (fun c => List.length (snd c) = len d) (columns d).

(** A frame of bars: every price column carries the same series. *)
Definition bars (ix : list Z) (close : Series) : DataFrame :=
  mkDataFrame ix
    [("open", close); ("high", close); ("low", close); ("close", close);
     ("volume", close)].

(** A buffer holding the bars stamped [ix], with no indicator. *)
Definition buffer_of (ix : list Z) (max_size : Z) : FrameClient :=
  mkFrameClient (bars ix (map of_Z ix)) max_size [].

(** Four one-minute bars closing at 1, 2, 4 and 8. *)
Definition demo_buffer : FrameClient :=
  add_rows (bars [1; 2; 3; 4] [1; 2; 4; 8]%float) (init 1000).

(** *** Columns and indicators *)

(** The frame with the columns [labels] removed, where present. *)
Definition without (labels : list string) (d : DataFrame) : DataFrame :=
  mkDataFrame (index d)
    (filter (fun c => negb (mem (fst c) labels)) (columns d)).

(** Names after an assignment to [c]: unchanged when [c] is among them,
    [c] last otherwise. *)
Definition add_name (c : string) (names : list string) : list string :=
  if mem c names then names else names ++ [c].

(** What [macd] computes from the price columns, when nothing raises. *)
Definition macd_series (fast slow macd_period : Z) (d : DataFrame)
  : option Series :=
  match getitem "close" d with
  | None => None
  | Some close =>
      match ewm_mean fast fast close, ewm_mean slow slow close with
      | inr f, inr s =>
          match ewm_mean macd_period macd_period (s_sub f s) with
          | inr m => Some m
          | inl _ => None
          end
      | _, _ => None
      end
  end.

(** What [atr] computes from the price columns, when nothing raises. *)
Definition atr_series (period : Z) (d : DataFrame) : option Series :=
  match getitem "high" d, getitem "low" d, getitem "close" d with
  | Some high, Some low, Some close =>
      match rolling period with
      | inr w =>
          Some (rolling_mean w
                  (row_max3 (s_abs (s_sub high low))
                            (s_abs (s_sub high (shift1 close)))
                            (s_abs (s_sub low (shift1 close)))))
      | inl _ => None
      end
  | _, _, _ => None
  end.

(** What [bbands] computes: the deviation is taken over the moving
    average. *)
Definition bbands_series (period : Z) (std : float) (d : DataFrame)
  : option Series :=
  match getitem "close" d, rolling period with
  | Some close, inr w =>
      let ma := rolling_mean w close in
      let sd := rolling_std w ma in
      let up := s_add ma (s_scale std sd) in
      let dn := s_sub ma (s_scale std sd) in
      Some (s_div (s_sub close dn) (s_sub up dn))
  | _, _ => None
  end.

(** Bollinger %b as the specification words it: mean and deviation both
    over [close]. *)
Definition bbands_percent_of_close (period : nat) (std : float)
  (close : Series) : Series :=
  let ma := rolling_mean period close in
  let sd := rolling_std period close in
  let upper := s_add ma (s_scale std sd) in
  let lower := s_sub ma (s_scale std sd) in
  s_div (s_sub close lower) (s_sub upper lower).

(** The columns each method drops before it returns. *)
Definition macd_scratch : list string := ["macd_fast"; "macd_slow"; "macd_diff"].
Definition atr_scratch : list string := ["tr_hl"; "tr_hp"; "tr_lp"; "tr"].
Definition bbands_scratch : list string :=
  ["bbands_ma"; "bbands_std"; "bbands_up"; "bbands_dn"].

(** *** Registration calls and the registry *)

(** The state after a call that registered [ind] under [name] and left the
    frame as [d]. *)
Definition registered (name : string) (ind : Indicator) (d : DataFrame)
  (fc : FrameClient) : FrameClient :=
  mkFrameClient d (max_size fc) (dict_set name ind (indicators fc)).

(** The method a set of keywords belongs to. *)
Definition method (a : Kwargs) : Func :=
  match a with
  | MacdArgs _ _ _ _ => Fmacd
  | AtrArgs _ _ => Fatr
  | BbandsArgs _ _ _ => Fbbands
  end.

(** The [name] keyword. *)
Definition name_of (a : Kwargs) : string :=
  match a with
  | MacdArgs _ _ _ name => name
  | AtrArgs _ name => name
  | BbandsArgs _ _ name => name
  end.

(** The same keywords under another [name]. *)
Definition rename (name : string) (a : Kwargs) : Kwargs :=
  match a with
  | MacdArgs fast slow macd_period _ => MacdArgs fast slow macd_period name
  | AtrArgs period _ => AtrArgs period name
  | BbandsArgs period std _ => BbandsArgs period std name
  end.

(** What a registration call stores. *)
Definition spec_of (a : Kwargs) : Indicator := mkIndicator a (method a).

(** A registration method applied to its arguments: [macd(...)], [atr(...)]
    or [bbands(...)]. *)
Definition register (a : Kwargs) : M FrameClient unit := call (spec_of a).

(** The column a method leaves in the frame. *)
Definition output_column (a : Kwargs) : string :=
  match a with
  | MacdArgs _ _ _ _ => "macd"
  | AtrArgs _ _ => "atr"
  | BbandsArgs _ _ _ => "bbands_percent"
  end.

Definition scratch (a : Kwargs) : list string :=
  match a with
  | MacdArgs _ _ _ _ => macd_scratch
  | AtrArgs _ _ => atr_scratch
  | BbandsArgs _ _ _ => bbands_scratch
  end.

Definition series_of (a : Kwargs) (d : DataFrame) : option Series :=
  match a with
  | MacdArgs fast slow macd_period _ => macd_series fast slow macd_period d
  | AtrArgs period _ => atr_series period d
  | BbandsArgs period std _ => bbands_series period std d
  end.

(** All registered indicators, one after the other; a raise ends the
    sequence. *)
Fixpoint call_all (inds : list Indicator) : M FrameClient unit :=
  match inds with
  | [] => ret tt
  | ind :: rest => bind (call ind) (fun _ => call_all rest)
  end.

(** An entry as a registration call leaves it: stored under the name it
    carries, with the method its keywords belong to. *)
Definition entry_ok (e : string * Indicator) : Prop :=
  name_of (args (snd e)) = fst e /\ func (snd e) = method (args (snd e)).

(** A registry as registration calls build it. *)
Definition registry_ok (reg : list (string * Indicator)) : Prop :=
  NoDup (keys reg) /\ Forall entry_ok reg.

(** Two outcomes that end alike and leave the same frame. *)
Definition sim {A : Type} (o1 o2 : Outcome FrameClient A) : Prop :=
  match o1, o2 with
  | Return a1 s1, Return a2 s2 => a1 = a2 /\ df s1 = df s2
  | Raise e1 s1, Raise e2 s2 => e1 = e2 /\ df s1 = df s2
  | _, _ => False
  end.

(** A computation that reads and writes the frame and nothing else. *)
Definition frame_only {A : Type} (m : M FrameClient A) : Prop :=
  (forall fc1 fc2, df fc1 = df fc2 -> sim (m fc1) (m fc2))
  /\ (forall fc, indicators (state_of (m fc)) = indicators fc
                 /\ max_size (state_of (m fc)) = max_size fc).

(** A method is the guard [_save_indicator] followed by a body. *)
Definition guarded (name : string) (f : Func) (a : Kwargs)
  (body : M FrameClient unit) : M FrameClient unit :=
  bind (_save_indicator name f a)
       (fun go => if negb go then ret tt else body).

(** *** The world of the robot *)

(** The world after one more broker call, and after several. *)
Definition logged (c : ApiCall) (w : World) : World :=
  mkWorld (broker w) (clock w) (api_log w ++ [c]) (clock_reads w) (slept w).

Definition logged_all (cs : list ApiCall) (w : World) : World :=
  mkWorld (broker w) (clock w) (api_log w ++ cs) (clock_reads w) (slept w).

(** A broker that acknowledges pending orders with id 42, places no market
    order and confirms every subscription; the clock ticks once a second. *)
Definition demo_world : World :=
  mkWorld
    (fun _ c =>
       match c with
       | create_entry_order _ => Gives (VOrder (mkOrder 42))
       | api_open_trade _ => Gives VNone
       | _ => Gives (VBool true)
       end)
    (fun n => 1000000000 * Z.of_nat n)
    [] 0 [].

(** The values a broker gives for one request per symbol, in order, when
    none of the requests fails. *)
Fixpoint answers (bk : list ApiCall -> ApiCall -> Reply) (log : list ApiCall)
  (request : string -> ApiCall) (l : list string) : option (list Value) :=
  match l with
  | [] => Some []
  | sym :: rest =>
      match bk log (request sym) with
      | Gives v =>
          option_map (cons v) (answers bk (log ++ [request sym]) request rest)
      | Fails _ => None
      end
  end.



(** *** Further vocabulary *)

(** [d[k]] on the registry. *)
Fixpoint dict_get {V : Type} (k : string) (d : list (string * V)) : option V :=
  match d with
  | [] => None
  | (k', v) :: rest => if String.eqb k k' then Some v else dict_get k rest
  end.

(** The calls a user makes on a buffer, and runs of them. *)
Inductive Action : Type :=
| DoRegister (a : Kwargs)
| DoAddRows (rows : DataFrame)
| DoUpdate.

Definition perform (fc : FrameClient) (act : Action) : FrameClient :=
  match act with
  | DoRegister a => state_of (register a fc)
  | DoAddRows rows => add_rows rows fc
  | DoUpdate => state_of (update fc)
  end.

Definition perform_all (acts : list Action) (fc : FrameClient) : FrameClient :=
  fold_left perform acts fc.

(** The exceptions a computation over columns can raise. *)
Definition benign (e : Exn) : Prop :=
  match e with
  | KeyError _ => True
  | ValueError => True
  | _ => False
  end.

(** The first price column a method reads. *)
Definition first_input (a : Kwargs) : string :=
  match a with
  | MacdArgs _ _ _ _ => "close"
  | AtrArgs _ _ => "high"
  | BbandsArgs _ _ _ => "close"
  end.

(** Every column name an indicator method may write or drop. *)
Definition indicator_columns : list string :=
  ["macd"; "atr"; "bbands_percent"]
  ++ macd_scratch ++ atr_scratch ++ bbands_scratch.

(** One indicator pass on a frame: the scratch columns to drop, the output
    column and the series written to it; and a sequence of passes. *)
Definition Pass : Type := (list string * string * Series)%type.

Definition pass_scratch (p : Pass) : list string := fst (fst p).
Definition pass_output (p : Pass) : string := snd (fst p).
Definition pass_series (p : Pass) : Series := snd p.

Definition run_pass (d : DataFrame) (p : Pass) : DataFrame :=
  setitem (pass_output p) (pass_series p) (without (pass_scratch p) d).

Definition run_passes (ps : list Pass) (d : DataFrame) : DataFrame :=
  fold_left run_pass ps d.

Definition drop_all (ps : list Pass) (d : DataFrame) : DataFrame :=
  fold_left (fun e p => without (pass_scratch p) e) ps d.

Definition write_all (ps : list Pass) (d : DataFrame) : DataFrame :=
  fold_left (fun e p => setitem (pass_output p) (pass_series p) e) ps d.

(** No pass writes a column another pass treats as scratch. *)
Definition passes_ok (ps : list Pass) : Prop :=
  forall p q, In p ps -> In q ps -> mem (pass_output p) (pass_scratch q) = false.

(** The pass of a registered call on a frame with the price columns of
    [base]. *)
Definition pass_of (base : DataFrame) (a : Kwargs) : option Pass :=
  match series_of a base with
  | Some s => Some (scratch a, output_column a, s)
  | None => None
  end.

Fixpoint passes_of (base : DataFrame) (l : list Kwargs) : option (list Pass) :=
  match l with
  | [] => Some []
  | a :: rest =>
      match pass_of base a, passes_of base rest with
      | Some p, Some ps => Some (p :: ps)
      | _, _ => None
      end
  end.

(** *** The data side of the robot *)

Import FxRobotData.

(** The session after more requests. *)
Definition sent_more (rs : list FxRobotData.Request)
  (w : FxRobotData.Session) : FxRobotData.Session :=
  FxRobotData.mkSession (FxRobotData.server w) (FxRobotData.sent w ++ rs).

(** The server answers one request per symbol, in order, without raising. *)
Fixpoint accepts
  (sv : list FxRobotData.Request -> FxRobotData.Request
        -> Exn + FxRobotData.Response)
  (log : list FxRobotData.Request)
  (request : string -> FxRobotData.Request) (l : list string) : Prop :=
  match l with
  | [] => True
  | sym :: rest =>
      (exists v, sv log (request sym) = inr v)
      /\ accepts sv (log ++ [request sym]) request rest
  end.

(** A text cell holding one of [symbols]. *)
Definition cell_in (symbols : list string) (cell : Cell) : bool :=
  match cell with
  | CStr s => mem s symbols
  | CNum _ => false
  end.

(** A symbol without a comma. *)
Fixpoint comma_free (s : string) : Prop :=
  match s with
  | EmptyString => True
  | String c rest => c <> ","%char /\ comma_free rest
  end.

(** [st] has the bars and the non-indicator columns of [fc]. *)
Definition untouched (fc : FrameClient) (st : FrameClient) : Prop :=
  index (df st) = index (df fc)
  /\ forall c, mem c indicator_columns = false ->
       getitem c (df st) = getitem c (df fc).

(** A computation that leaves bars and non-indicator columns alone. *)
Definition touches_indicators_only {A : Type} (m : M FrameClient A) : Prop :=
  forall fc, untouched fc (state_of (m fc)).

(** A computation that raises column errors only. *)
Definition raises_benign {A : Type} (m : M FrameClient A) : Prop :=
  forall fc e st, m fc = Raise e st -> benign e.

(** Every output column of [ps] exists in [d]. *)
Definition outputs_present (ps : list Pass) (d : DataFrame) : Prop :=
  forall p, In p ps -> has_column (pass_output p) d = true.

(** A data server: candles for any symbol, a three-row offers table, and
    no market data for ["XXX"]. *)
Definition demo_candles : DataFrame :=
  mkDataFrame [1; 2; 3]
    [("bidopen", [1; 2; 3]%float); ("bidclose", [2; 3; 4]%float);
     ("bidhigh", [3; 4; 5]%float); ("bidlow", [0; 1; 2]%float);
     ("tickqty", [9; 9; 9]%float)].

(** Three offers. *)
Definition demo_offers : Table :=
  mkTable [0; 1; 2]
    [("currency", [CStr "EUR/USD"; CStr "GBP/USD"; CStr "USD/JPY"]);
     ("bid", [CNum 1; CNum 2; CNum 3]);
     ("ask", [CNum 4; CNum 5; CNum 6])].

(** The data server of the examples. *)
Definition demo_session : Session :=
  mkSession
    (fun _ r =>
       match r with
       | get_candles _ _ _ _ => inr (Candles demo_candles)
       | api_get_offers => inr (Offers demo_offers)
       | api_subscribe_market_data "XXX" _ => inl (BrokerError 7)
       | _ => inr Nothing
       end)
    [].

(** ** The merge step of [add_rows] *)

Lemma scan_first_index last_ts ix k :
  scan last_ts ix k = (k + first_index (Z.eqb last_ts) ix)%nat.
Proof.
  revert k. induction ix as [|t rest IH]; intro k; simpl.
  - lia.
  - destruct (last_ts =? t); [lia|]. rewrite IH. lia.
Qed.

Lemma first_index_le p l : (first_index p l <= List.length l)%nat.
Proof.
  induction l as [|t rest IH]; simpl; [lia|]. destruct (p t); lia.
Qed.

Lemma first_index_before p l j :
  (j < first_index p l)%nat -> p (nth j l 0) = false.
Proof.
  revert j. induction l as [|t rest IH]; simpl; intros j Hj; [lia|].
  destruct (p t) eqn:Hp; [lia|].
  destruct j as [|j]; [exact Hp|]. apply IH. lia.
Qed.

Lemma first_index_hit p l :
  (first_index p l < List.length l)%nat -> p (nth (first_index p l) l 0) = true.
Proof.
  induction l as [|t rest IH]; simpl; intro H; [lia|].
  destruct (p t) eqn:Hp; [exact Hp|]. apply IH. lia.
Qed.

(** C4, as amended: on a non-empty buffer [add_rows] takes [i] to be the
    index of the first bar of [rows] whose timestamp EQUALS the buffer's
    last timestamp ([len(rows)] when there is none); it appends all of
    [rows] when [i == len(rows)] or [i == 0] and exactly [rows[i+1:]]
    otherwise, and then evicts. *)
Theorem add_rows_first_equal (rows : DataFrame) (fc : FrameClient) :
  empty (df fc) = false ->
  exists i : nat,
    (i <= len rows)%nat /\
    (forall j, (j < i)%nat -> nth j (index rows) 0 <> List.last (index (df fc)) 0) /\
    ((i < len rows)%nat -> nth i (index rows) 0 = List.last (index (df fc)) 0) /\
    add_rows rows fc =
      evict (set_df (append (df fc)
                       (if (i =? len rows)%nat || (i =? 0)%nat
                        then rows else iloc_from (S i) rows)) fc).
Proof.
  intro Hne.
  set (last_ts := List.last (index (df fc)) 0).
  exists (first_index (Z.eqb last_ts) (index rows)).
  split; [apply first_index_le|].
  split.
  { intros j Hj Heq. apply first_index_before in Hj.
    rewrite Heq, Z.eqb_refl in Hj. discriminate. }
  split.
  { intro Hlt. apply first_index_hit in Hlt.
    apply Z.eqb_eq in Hlt. symmetry. exact Hlt. }
  unfold add_rows. rewrite Hne. simpl negb. cbv iota.
  fold last_ts. rewrite scan_first_index. simpl Nat.add.
  destruct ((first_index (Z.eqb last_ts) (index rows) =? len rows)%nat
            || (first_index (Z.eqb last_ts) (index rows) =? 0)%nat);
    reflexivity.
Qed.

Lemma add_rows_first_equal_witness :
  exists i : nat,
    (i <= 4)%nat /\
    (forall j, (j < i)%nat -> nth j [2; 3; 4; 5] 0 <> 3) /\
    ((i < 4)%nat -> nth i [2; 3; 4; 5] 0 = 3) /\
    index (df (add_rows (bars [2; 3; 4; 5] [2; 3; 4; 5]%float)
                        (buffer_of [1; 2; 3] 1000)))
    = [1; 2; 3; 4; 5].
Proof.
  destruct (add_rows_first_equal (bars [2; 3; 4; 5] [2; 3; 4; 5]%float)
              (buffer_of [1; 2; 3] 1000) eq_refl)
    as (i & Hle & Hbefore & Hhit & Heq).
  exists i.
  split; [exact Hle|]. split; [exact Hbefore|]. split; [exact Hhit|].
  rewrite Heq. clear Heq.
  destruct i as [|[|i]].
  - exfalso. assert (H : (0 < 4)%nat) by lia.
    specialize (Hhit H). discriminate Hhit.
  - reflexivity.
  - exfalso. apply (Hbefore 1%nat); [lia|reflexivity].
Defined.

(** C4, as worded, fails: with the first DIFFERING timestamp for [i] the
    rows [2,3,4,5] would all be appended to the buffer [1,2,3]; the code
    appends [4,5] only. *)
Lemma add_rows_first_differing_counterexample :
  index (df (add_rows (bars [2; 3; 4; 5] [2; 3; 4; 5]%float)
                      (buffer_of [1; 2; 3] 1000)))
  = [1; 2; 3; 4; 5]
  /\ index (df (add_rows_first_differing
                  (bars [2; 3; 4; 5] [2; 3; 4; 5]%float)
                  (buffer_of [1; 2; 3] 1000)))
     = [1; 2; 3; 2; 3; 4; 5]
  /\ add_rows (bars [2; 3; 4; 5] [2; 3; 4; 5]%float) (buffer_of [1; 2; 3] 1000)
     <> add_rows_first_differing (bars [2; 3; 4; 5] [2; 3; 4; 5]%float)
          (buffer_of [1; 2; 3] 1000).
Proof.
  split; [reflexivity|]. split; [reflexivity|].
  intro H. apply (f_equal (fun st => List.length (index (df st)))) in H.
  vm_compute in H. discriminate H.
Qed.

(** ** The index through [append], [iloc] and eviction *)

Lemma index_append d other : index (append d other) = index d ++ index other.
Proof. reflexivity. Qed.

Lemma index_iloc_from k d : index (iloc_from k d) = skipn k (index d).
Proof. reflexivity. Qed.

Lemma len_iloc_from k d : len (iloc_from k d) = (len d - k)%nat.
Proof. unfold len. rewrite index_iloc_from. apply length_skipn. Qed.

Lemma max_size_evict fc : max_size (evict fc) = max_size fc.
Proof. unfold evict. destruct (0 <? _); reflexivity. Qed.

Lemma max_size_add_rows rows fc : max_size (add_rows rows fc) = max_size fc.
Proof.
  unfold add_rows. rewrite max_size_evict. destruct (_ || _); reflexivity.
Qed.

Lemma iloc_from_0 d : iloc_from 0 d = d.
Proof.
  destruct d as [ix cols]. unfold iloc_from. simpl. f_equal.
  induction cols as [|[n s] rest IH]; simpl; [reflexivity|]. now rewrite IH.
Qed.

(** Eviction is one [iloc]: it drops the first [len - max_size] rows, none
    when the frame fits. *)
Lemma evict_iloc fc :
  df (evict fc)
  = iloc_from (Z.to_nat (Z.of_nat (len (df fc)) - max_size fc)) (df fc).
Proof.
  unfold evict. destruct (0 <? _) eqn:H.
  - reflexivity.
  - apply Z.ltb_ge in H.
    replace (Z.to_nat _) with 0%nat by lia. now rewrite iloc_from_0.
Qed.

Lemma len_evict fc :
  0 <= max_size fc -> Z.of_nat (len (df (evict fc))) <= max_size fc.
Proof.
  intro H. rewrite evict_iloc, len_iloc_from. lia.
Qed.

(** What [add_rows] hands to eviction: the buffer followed by a suffix of
    [rows]. *)
Lemma add_rows_merge rows fc :
  exists k : nat,
    add_rows rows fc = evict (set_df (append (df fc) (iloc_from k rows)) fc).
Proof.
  unfold add_rows.
  destruct (_ || _).
  - exists 0%nat. now rewrite iloc_from_0.
  - eexists. reflexivity.
Qed.

Lemma max_size_add_rows_all calls fc :
  max_size (add_rows_all calls fc) = max_size fc.
Proof.
  revert fc. induction calls as [|rows rest IH]; intro fc; simpl.
  - reflexivity.
  - unfold add_rows_all in IH. rewrite IH. apply max_size_add_rows.
Qed.

Lemma add_rows_all_snoc calls rows fc :
  add_rows_all (calls ++ [rows]) fc = add_rows rows (add_rows_all calls fc).
Proof. unfold add_rows_all. now rewrite fold_left_app. Qed.

(** C2: with a capacity [max_size >= 0], after every [add_rows] call of any
    run of calls the buffer holds at most [max_size] bars, and a call drops
    exactly the oldest [length - max_size] bars of the merged frame when
    that is positive (none otherwise). *)
Theorem add_rows_bound (fc : FrameClient) :
  0 <= max_size fc ->
  (forall (calls : list DataFrame) (rows : DataFrame),
      Z.of_nat (len (df (add_rows_all (calls ++ [rows]) fc))) <= max_size fc)
  /\ (forall rows : DataFrame,
      exists k : nat,
        let merged := append (df fc) (iloc_from k rows) in
        df (add_rows rows fc)
        = iloc_from (Z.to_nat (Z.of_nat (len merged) - max_size fc)) merged
        /\ (Z.of_nat (len merged) <= max_size fc ->
            df (add_rows rows fc) = merged)).
Proof.
  intro Hcap. split.
  - intros calls rows. rewrite add_rows_all_snoc.
    destruct (add_rows_merge rows (add_rows_all calls fc)) as [k ->].
    pose proof (len_evict
                  (set_df (append (df (add_rows_all calls fc)) (iloc_from k rows))
                          (add_rows_all calls fc))) as H.
    simpl max_size in H. rewrite max_size_add_rows_all in H.
    exact (H Hcap).
  - intro rows. destruct (add_rows_merge rows fc) as [k Hk].
    exists k. cbv zeta. rewrite Hk, evict_iloc. simpl df. simpl max_size.
    split; [reflexivity|].
    intro Hfit.
    replace (Z.to_nat _) with 0%nat by lia. apply iloc_from_0.
Qed.

Lemma add_rows_bound_witness :
  Z.of_nat (len (df (add_rows_all
                       ([bars [1; 2; 3] [1; 2; 3]%float]
                        ++ [bars [3; 4; 5; 6] [3; 4; 5; 6]%float])
                       (init 4)))) <= 4.
Proof.
  exact (proj1 (add_rows_bound (init 4) ltac:(simpl; lia))
           [bars [1; 2; 3] [1; 2; 3]%float]
           (bars [3; 4; 5; 6] [3; 4; 5; 6]%float)).
Defined.

(** ** Ordering of the index *)

Lemma ascending_tail x l : ascending (x :: l) -> ascending l.
Proof. simpl. tauto. Qed.

Lemma ascending_skipn k l : ascending l -> ascending (skipn k l).
Proof.
  revert l. induction k as [|k IH]; intros l H; [exact H|].
  destruct l as [|x l]; [exact I|]. simpl skipn.
  apply IH. exact (ascending_tail _ _ H).
Qed.

Lemma ascending_lower x l :
  ascending (x :: l) -> forall y, In y l -> x < y.
Proof.
  revert x. induction l as [|z l IH]; intros x H y Hin; [destruct Hin|].
  destruct H as [Hxz Hrest]. destruct Hin as [->|Hin]; [exact Hxz|].
  specialize (IH z Hrest y Hin). lia.
Qed.

Lemma ascending_NoDup l : ascending l -> NoDup l.
Proof.
  induction l as [|x l IH]; intro H; constructor.
  - intro Hin. pose proof (ascending_lower _ _ H x Hin). lia.
  - apply IH. exact (ascending_tail _ _ H).
Qed.

Lemma ascending_app l r :
  ascending l -> ascending r ->
  (forall y, In y r -> List.last l 0 < y) -> l <> [] ->
  ascending (l ++ r).
Proof.
  induction l as [|x l IH]; intros Hl Hr Hlast Hne; [congruence|].
  destruct l as [|z l].
  - simpl in Hlast. simpl app. split; [|exact Hr].
    destruct r as [|y r]; [exact I | apply Hlast; now left].
  - destruct Hl as [Hxz Hrest]. split; [exact Hxz|].
    apply IH; [exact Hrest | exact Hr | exact Hlast | discriminate].
Qed.

Lemma in_skipn_nth k l y :
  In y (skipn k l) -> exists j, (k <= j < List.length l)%nat /\ nth j l 0 = y.
Proof.
  revert l. induction k as [|k IH]; intros l Hin.
  - simpl in Hin. apply (In_nth _ _ 0) in Hin. destruct Hin as (j & Hj & Hy).
    exists j. split; [lia | exact Hy].
  - destruct l as [|x l]; [destruct Hin|].
    destruct (IH l Hin) as (j & Hj & Hy).
    exists (S j). split; [simpl; lia | exact Hy].
Qed.

Lemma ascending_nth_lt l i j :
  ascending l -> (i < j < List.length l)%nat -> nth i l 0 < nth j l 0.
Proof.
  revert i j. induction l as [|x l IH]; intros i j H Hij; [simpl in Hij; lia|].
  destruct j as [|j]; [lia|].
  destruct i as [|i].
  - simpl. apply (ascending_lower _ _ H). apply nth_In. simpl in Hij. lia.
  - simpl. apply IH; [exact (ascending_tail _ _ H) | simpl in Hij; lia].
Qed.

Lemma first_index_unique_match last_ts ix i :
  ascending ix -> (i < List.length ix)%nat -> nth i ix 0 = last_ts ->
  first_index (Z.eqb last_ts) ix = i.
Proof.
  intros Hasc Hi Hmatch.
  pose proof (first_index_le (Z.eqb last_ts) ix) as Hle.
  destruct (Nat.lt_trichotomy (first_index (Z.eqb last_ts) ix) i)
    as [Hlt|[Heq|Hgt]]; [|exact Heq|].
  - pose proof (first_index_hit (Z.eqb last_ts) ix ltac:(lia)) as Hhit.
    apply Z.eqb_eq in Hhit.
    pose proof (ascending_nth_lt ix _ i Hasc (conj Hlt Hi)). lia.
  - pose proof (first_index_before (Z.eqb last_ts) ix i Hgt) as Hb.
    rewrite Hmatch, Z.eqb_refl in Hb. discriminate Hb.
Qed.

(** The case the dedup rule does cover: when the buffer's last timestamp is
    found in [rows] at an index [i >= 1], the rows after it are appended
    and the index stays strictly ascending, without duplicates. *)
Lemma add_rows_ascending_deep_overlap (rows : DataFrame) (fc : FrameClient) :
  empty (df fc) = false ->
  ascending (index (df fc)) ->
  ascending (index rows) ->
  forall i, (0 < i < len rows)%nat ->
    nth i (index rows) 0 = List.last (index (df fc)) 0 ->
    ascending (index (df (add_rows rows fc)))
    /\ NoDup (index (df (add_rows rows fc))).
Proof.
  intros Hne Hb Hr i Hi Hmatch.
  assert (Hasc : ascending (index (df (add_rows rows fc)))).
  { unfold add_rows. rewrite Hne. cbn [negb].
    rewrite scan_first_index. cbn [Nat.add].
    rewrite (first_index_unique_match _ _ i Hr (proj2 Hi) Hmatch).
    replace ((i =? len rows)%nat || (i =? 0)%nat) with false.
    2:{ symmetry. apply orb_false_iff. split; apply Nat.eqb_neq; lia. }
    rewrite evict_iloc, index_iloc_from. apply ascending_skipn.
    cbn [df set_df]. rewrite index_append, index_iloc_from.
    apply ascending_app.
    - exact Hb.
    - apply ascending_skipn. exact Hr.
    - intros y Hy. apply in_skipn_nth in Hy. destruct Hy as (j & Hj & <-).
      rewrite <- Hmatch. apply ascending_nth_lt; [exact Hr|].
      unfold len in Hi. lia.
    - unfold empty in Hne. destruct (index (df fc)); discriminate. }
  split; [exact Hasc | exact (ascending_NoDup _ Hasc)].
Qed.

(** C1 at its failing input: the buffer [1,2,3] and the rows [3,4] are both
    strictly ascending and overlap in one bar, the match is at index 0, all
    of [rows] is appended and timestamp 3 is held twice. *)
Theorem add_rows_one_bar_overlap_duplicates :
  ascending [1; 2; 3] /\ ascending [3; 4] /\ overlap 1 [1; 2; 3] [3; 4] /\
  index (df (add_rows (bars [3; 4] [3; 4]%float) (buffer_of [1; 2; 3] 1000)))
  = [1; 2; 3; 3; 4]
  /\ ~ NoDup (index (df (add_rows (bars [3; 4] [3; 4]%float)
                                  (buffer_of [1; 2; 3] 1000)))).
Proof.
  split; [simpl; lia|]. split; [simpl; lia|].
  split; [unfold overlap; simpl; repeat split; lia|].
  split; [reflexivity|].
  change (~ NoDup [1; 2; 3; 3; 4]). intro H.
  inversion H as [|x1 l1 _ H1]; subst.
  inversion H1 as [|x2 l2 _ H2]; subst.
  inversion H2 as [|x3 l3 Hnotin _]; subst.
  apply Hnotin. now left.
Qed.

(** ** [open_trade] *)

(** C5: [open_trade] makes one broker call, [create_entry_order] when the
    order type is ["Entry"] and [open_trade] otherwise; when the broker
    hands back an order it returns the order's id, when it hands back
    [None] it returns [None] without raising; either way what the broker
    handed back is appended to the portfolio, once. *)
Theorem open_trade_places_one_order
  (trade : Trade) (portfolio : Portfolio) (w : World) :
  exists call : ApiCall,
    (get_order_type trade = "Entry" ->
       call = create_entry_order (get_fxcm_args trade)) /\
    (get_order_type trade <> "Entry" ->
       call = api_open_trade (get_fxcm_args trade)) /\
    (forall o : Order,
       broker w (api_log w) call = Gives (VOrder o) ->
       open_trade trade portfolio w
       = Return (Some (orderId o), add_order (VOrder o) portfolio)
                (logged call w)) /\
    (broker w (api_log w) call = Gives VNone ->
       open_trade trade portfolio w
       = Return (None, add_order VNone portfolio) (logged call w)) /\
    (forall v : Value,
       orders (add_order v portfolio) = orders portfolio ++ [v] /\
       List.length (orders (add_order v portfolio))
       = S (List.length (orders portfolio))).
Proof.
  unfold open_trade, bind.
  destruct (String.eqb (get_order_type trade) "Entry") eqn:Hty.
  - exists (create_entry_order (get_fxcm_args trade)).
    apply String.eqb_eq in Hty.
    split; [reflexivity|]. split; [intro Hn; contradiction|].
    split; [|split].
    + intros o Hb. unfold api. rewrite Hb. reflexivity.
    + intro Hb. unfold api. rewrite Hb. reflexivity.
    + intro v. simpl. rewrite length_app. simpl. split; [reflexivity|lia].
  - exists (api_open_trade (get_fxcm_args trade)).
    apply String.eqb_neq in Hty.
    split; [intro He; contradiction|]. split; [reflexivity|].
    split; [|split].
    + intros o Hb. unfold api. rewrite Hb. reflexivity.
    + intro Hb. unfold api. rewrite Hb. reflexivity.
    + intro v. simpl. rewrite length_app. simpl. split; [reflexivity|lia].
Qed.

Lemma open_trade_places_one_order_witness :
  open_trade (mkTrade "EUR/USD" true 10 "Entry") (mkPortfolio 1 ["EUR/USD"] [])
             demo_world
  = Return (Some 42, mkPortfolio 1 ["EUR/USD"] [VOrder (mkOrder 42)])
           (logged (create_entry_order
                      (get_fxcm_args (mkTrade "EUR/USD" true 10 "Entry")))
                   demo_world)
  /\ open_trade (mkTrade "EUR/USD" true 10 "AtMarket")
                (mkPortfolio 1 ["EUR/USD"] []) demo_world
     = Return (None, mkPortfolio 1 ["EUR/USD"] [VNone])
              (logged (api_open_trade
                         (get_fxcm_args (mkTrade "EUR/USD" true 10 "AtMarket")))
                      demo_world).
Proof.
  split.
  - destruct (open_trade_places_one_order
                (mkTrade "EUR/USD" true 10 "Entry")
                (mkPortfolio 1 ["EUR/USD"] []) demo_world)
      as (call & Hentry & _ & Horder & _).
    rewrite (Hentry eq_refl) in Horder.
    exact (Horder (mkOrder 42) eq_refl).
  - destruct (open_trade_places_one_order
                (mkTrade "EUR/USD" true 10 "AtMarket")
                (mkPortfolio 1 ["EUR/USD"] []) demo_world)
      as (call & _ & Hmarket & _ & Hnone & _).
    rewrite (Hmarket ltac:(discriminate)) in Hnone.
    exact (Hnone eq_refl).
Defined.

(** ** Subscriptions *)

Lemma list_set_middle {A : Type} (done : list A) (v x : A) (rest : list A) :
  list_set (List.length done) v (done ++ x :: rest) = done ++ v :: rest.
Proof.
  induction done as [|d done IH]; simpl; [reflexivity|]. now rewrite IH.
Qed.

Lemma logged_all_nil w : logged_all [] w = w.
Proof. destruct w. unfold logged_all. simpl. now rewrite app_nil_r. Qed.

Lemma each_symbol_answers request todo :
  forall (done : list Value) (w : World) (vs : list Value),
    answers (broker w) (api_log w) request todo = Some vs ->
    each_symbol request (List.length done) todo
                (done ++ repeat VNone (List.length todo)) w
    = Return (done ++ vs) (logged_all (map request todo) w).
Proof.
  induction todo as [|sym rest IH]; intros done w vs Hans.
  - simpl in Hans. injection Hans as <-. simpl. now rewrite logged_all_nil.
  - simpl in Hans. simpl each_symbol. unfold bind, api.
    destruct (broker w (api_log w) (request sym)) as [v|e]; [|discriminate].
    destruct (answers (broker w) (api_log w ++ [request sym]) request rest)
      as [vs'|] eqn:Hrest; [|discriminate].
    injection Hans as <-.
    rewrite list_set_middle.
    replace (done ++ v :: repeat VNone (List.length rest))
      with ((done ++ [v]) ++ repeat VNone (List.length rest))
      by now rewrite <- app_assoc.
    replace (S (List.length done)) with (List.length (done ++ [v]))
      by (rewrite length_app; simpl; lia).
    rewrite (IH (done ++ [v])
               (mkWorld (broker w) (clock w) (api_log w ++ [request sym])
                        (clock_reads w) (slept w)) vs' Hrest).
    rewrite <- app_assoc. simpl. unfold logged_all. simpl.
    now rewrite <- app_assoc.
Qed.

(** The list form of the subscription methods: one broker call per symbol,
    in order, and the results in the same order. *)
Lemma subscribe_instrument_seq (l : list string) (w : World) (vs : list Value) :
  answers (broker w) (api_log w) api_subscribe_instrument l = Some vs ->
  subscribe_instrument (Seq l) w
  = Return vs (logged_all (map api_subscribe_instrument l) w).
Proof.
  intro H. exact (each_symbol_answers api_subscribe_instrument l [] w vs H).
Qed.

Lemma unsubscribe_instrument_seq (l : list string) (w : World) (vs : list Value) :
  answers (broker w) (api_log w) api_unsubscribe_instrument l = Some vs ->
  unsubscribe_instrument (Seq l) w
  = Return vs (logged_all (map api_unsubscribe_instrument l) w).
Proof.
  intro H. exact (each_symbol_answers api_unsubscribe_instrument l [] w vs H).
Qed.

(** C7 at its failing input: given the single symbol ["EUR/USD"] as a
    [str], both methods call the broker seven times, once per character,
    and return seven results; the symbol itself is never requested. *)
Theorem subscribe_instrument_single_string_splits :
  api_log (state_of (subscribe_instrument (Str "EUR/USD") demo_world))
  = map api_subscribe_instrument ["E"; "U"; "R"; "/"; "U"; "S"; "D"]
  /\ subscribe_instrument (Str "EUR/USD") demo_world
     = Return (repeat (VBool true) 7)
              (logged_all (map api_subscribe_instrument
                             ["E"; "U"; "R"; "/"; "U"; "S"; "D"]) demo_world)
  /\ api_log (state_of (unsubscribe_instrument (Str "EUR/USD") demo_world))
     = map api_unsubscribe_instrument ["E"; "U"; "R"; "/"; "U"; "S"; "D"]
  /\ ~ In (api_subscribe_instrument "EUR/USD")
          (api_log (state_of (subscribe_instrument (Str "EUR/USD") demo_world))).
Proof.
  split; [reflexivity|]. split; [reflexivity|]. split; [reflexivity|].
  simpl. intros [H|[H|[H|[H|[H|[H|[H|[]]]]]]]]; discriminate H.
Qed.

(** ** The scheduler

    Comparisons of binary64 values are settled on their [spec_float]
    images. *)












(** ** Columns of a frame *)

Lemma lookup_assign_eq c s cols : lookup c (assign c s cols) = Some s.
Proof.
  induction cols as [|[n old] rest IH]; simpl.
  - now rewrite String.eqb_refl.
  - destruct (String.eqb c n) eqn:E; simpl; rewrite E; [reflexivity|exact IH].
Qed.

Lemma lookup_assign_neq c c' s cols :
  c <> c' -> lookup c (assign c' s cols) = lookup c cols.
Proof.
  intro Hne. apply String.eqb_neq in Hne.
  induction cols as [|[n old] rest IH]; simpl.
  - now rewrite Hne.
  - destruct (String.eqb c' n) eqn:E; simpl.
    + apply String.eqb_eq in E. subst n. now rewrite Hne.
    + now rewrite IH.
Qed.

Lemma getitem_setitem_eq c s d : getitem c (setitem c s d) = Some s.
Proof. apply lookup_assign_eq. Qed.

Lemma getitem_setitem_neq c c' s d :
  c <> c' -> getitem c (setitem c' s d) = getitem c d.
Proof. apply lookup_assign_neq. Qed.

Lemma names_assign c s cols :
  map fst (assign c s cols) = add_name c (map fst cols).
Proof.
  unfold add_name, mem.
  induction cols as [|[n old] rest IH]; simpl; [reflexivity|].
  destruct (String.eqb c n); simpl; [reflexivity|].
  rewrite IH. now destruct (existsb (String.eqb c) (map fst rest)).
Qed.

Lemma column_names_setitem c s d :
  column_names (setitem c s d) = add_name c (column_names d).
Proof. apply names_assign. Qed.

Lemma has_column_setitem c c' s d :
  has_column c (setitem c' s d) = String.eqb c c' || has_column c d.
Proof.
  unfold has_column. rewrite column_names_setitem.
  unfold add_name, mem, column_names.
  destruct (existsb (String.eqb c') (map fst (columns d))) eqn:E.
  - destruct (String.eqb c c') eqn:Ec; [|reflexivity].
    apply String.eqb_eq in Ec. subst c'. now rewrite E.
  - rewrite existsb_app. simpl. rewrite orb_false_r. apply orb_comm.
Qed.

Lemma drop_present labels d :
  forallb (fun l => has_column l d) labels = true ->
  drop labels d = inr (without labels d).
Proof.
  intro H. unfold drop.
  replace (filter (fun l => negb (has_column l d)) labels) with (@nil string);
    [reflexivity|].
  symmetry. induction labels as [|l rest IH]; [reflexivity|].
  simpl in H. apply andb_true_iff in H. destruct H as [Hl Hrest].
  simpl. rewrite Hl. simpl. exact (IH Hrest).
Qed.

Lemma without_setitem_scratch labels c s d :
  mem c labels = true -> without labels (setitem c s d) = without labels d.
Proof.
  intro Hin. unfold without, setitem. simpl. f_equal.
  induction (columns d) as [|[n old] rest IH]; simpl.
  - now rewrite Hin.
  - destruct (String.eqb c n) eqn:E; simpl.
    + apply String.eqb_eq in E. subst n. now rewrite Hin.
    + now rewrite IH.
Qed.

Lemma without_setitem_kept labels c s d :
  mem c labels = false ->
  without labels (setitem c s d) = setitem c s (without labels d).
Proof.
  intro Hout. unfold without, setitem. simpl. f_equal.
  induction (columns d) as [|[n old] rest IH]; simpl.
  - now rewrite Hout.
  - destruct (String.eqb c n) eqn:E; simpl.
    + apply String.eqb_eq in E. subst n. rewrite Hout. simpl.
      now rewrite String.eqb_refl.
    + rewrite IH. destruct (mem n labels); simpl; [reflexivity|now rewrite E].
Qed.

(** ** The indicators in closed form

    Each method writes its scratch columns, its output column and drops the
    scratch columns again; what remains is one assignment of a series that
    is a function of the price columns. *)

Ltac frame_lookup :=
  repeat first
    [ rewrite getitem_setitem_eq
    | rewrite getitem_setitem_neq by (intro; discriminate) ].

Ltac frame_step :=
  unfold bind, df_getitem, df_setitem, df_drop, lift, set_df, ret;
  repeat (progress (cbn [df max_size indicators]; frame_lookup)).

Ltac drop_scratch :=
  rewrite drop_present
    by (cbn [forallb]; rewrite !has_column_setitem; reflexivity);
  repeat first
    [ rewrite without_setitem_scratch by reflexivity
    | rewrite without_setitem_kept by reflexivity ].

Lemma macd_computes fast slow macd_period name fc m :
  empty (df fc) = false ->
  macd_series fast slow macd_period (df fc) = Some m ->
  macd fast slow macd_period name fc
  = Return tt
      (registered name
         (mkIndicator (MacdArgs fast slow macd_period name) Fmacd)
         (setitem "macd" m (without macd_scratch (df fc))) fc).
Proof.
  intros Hne Hs. unfold macd_series in Hs.
  destruct (getitem "close" (df fc)) as [close|] eqn:Hc; [|discriminate].
  destruct (ewm_mean fast fast close) as [|f] eqn:Hf; [discriminate|].
  destruct (ewm_mean slow slow close) as [|s] eqn:Hsl; [discriminate|].
  destruct (ewm_mean macd_period macd_period (s_sub f s)) as [|m'] eqn:Hm;
    [discriminate|].
  injection Hs as <-.
  unfold macd, _save_indicator. frame_step. rewrite Hne. cbn [negb].
  repeat first
    [ rewrite Hc | rewrite Hf | rewrite Hsl | rewrite Hm | progress frame_step ].
  drop_scratch. reflexivity.
Qed.

Lemma atr_computes period name fc s :
  empty (df fc) = false ->
  atr_series period (df fc) = Some s ->
  atr period name fc
  = Return tt
      (registered name (mkIndicator (AtrArgs period name) Fatr)
         (setitem "atr" s (without atr_scratch (df fc))) fc).
Proof.
  intros Hne Hs. unfold atr_series in Hs.
  destruct (getitem "high" (df fc)) as [high|] eqn:Hh; [|discriminate].
  destruct (getitem "low" (df fc)) as [low|] eqn:Hl; [|discriminate].
  destruct (getitem "close" (df fc)) as [close|] eqn:Hc; [|discriminate].
  destruct (rolling period) as [|w] eqn:Hw; [discriminate|].
  injection Hs as <-.
  unfold atr, _save_indicator. frame_step. rewrite Hne. cbn [negb].
  repeat first
    [ rewrite Hh | rewrite Hl | rewrite Hc | rewrite Hw | progress frame_step ].
  drop_scratch. reflexivity.
Qed.

Lemma bbands_computes period std name fc s :
  empty (df fc) = false ->
  bbands_series period std (df fc) = Some s ->
  bbands period std name fc
  = Return tt
      (registered name (mkIndicator (BbandsArgs period std name) Fbbands)
         (setitem "bbands_percent" s (without bbands_scratch (df fc))) fc).
Proof.
  intros Hne Hs. unfold bbands_series in Hs.
  destruct (getitem "close" (df fc)) as [close|] eqn:Hc; [|discriminate].
  destruct (rolling period) as [|w] eqn:Hw; [discriminate|].
  injection Hs as <-.
  unfold bbands, _save_indicator. frame_step. rewrite Hne. cbn [negb].
  repeat first [ rewrite Hc | rewrite Hw | progress frame_step ].
  drop_scratch. reflexivity.
Qed.

(** ** Registration calls *)

Lemma register_computes a fc s :
  empty (df fc) = false ->
  series_of a (df fc) = Some s ->
  register a fc
  = Return tt
      (registered (name_of a) (spec_of a)
         (setitem (output_column a) s (without (scratch a) (df fc))) fc).
Proof.
  destruct a as [fast slow macd_period name|period name|period std name];
    intros Hne Hs.
  - exact (macd_computes fast slow macd_period name fc s Hne Hs).
  - exact (atr_computes period name fc s Hne Hs).
  - exact (bbands_computes period std name fc s Hne Hs).
Qed.

Lemma register_on_empty a fc :
  empty (df fc) = true ->
  register a fc = Return tt (registered (name_of a) (spec_of a) (df fc) fc).
Proof.
  intro He.
  destruct a as [fast slow macd_period name|period name|period std name];
    unfold register, call, spec_of; cbn [func args method];
    [unfold macd|unfold atr|unfold bbands];
    unfold bind, _save_indicator; rewrite He; reflexivity.
Qed.

(** *** The body of a method touches the frame only *)

Lemma frame_only_ret {A : Type} (a : A) : frame_only (ret a).
Proof. split; [intros fc1 fc2 H; simpl; auto | intro fc; simpl; auto]. Qed.

Lemma frame_only_bind {A B : Type} (m : M FrameClient A)
  (k : A -> M FrameClient B) :
  frame_only m -> (forall a, frame_only (k a)) -> frame_only (bind m k).
Proof.
  intros [Hm1 Hm2] Hk. split.
  - intros fc1 fc2 H. unfold bind. specialize (Hm1 fc1 fc2 H).
    destruct (m fc1) as [a1 s1|e1 s1], (m fc2) as [a2 s2|e2 s2];
      simpl in Hm1; try contradiction.
    + destruct Hm1 as [<- Hs]. exact (proj1 (Hk a1) s1 s2 Hs).
    + exact Hm1.
  - intro fc. unfold bind. specialize (Hm2 fc).
    destruct (m fc) as [a s|e s]; simpl in Hm2.
    + destruct (proj2 (Hk a) s) as [Hi Hx]. rewrite Hi, Hx. exact Hm2.
    + exact Hm2.
Qed.

Lemma frame_only_getitem c : frame_only (df_getitem c).
Proof.
  split.
  - intros fc1 fc2 H. unfold df_getitem. rewrite H.
    destruct (getitem c (df fc2)); simpl; auto.
  - intro fc. unfold df_getitem. destruct (getitem c (df fc)); simpl; auto.
Qed.

Lemma frame_only_setitem c s : frame_only (df_setitem c s).
Proof.
  split.
  - intros fc1 fc2 H. unfold df_setitem. simpl. now rewrite H.
  - intro fc. simpl. auto.
Qed.

Lemma frame_only_drop labels : frame_only (df_drop labels).
Proof.
  split.
  - intros fc1 fc2 H. unfold df_drop. rewrite H.
    destruct (drop labels (df fc2)); simpl; auto.
  - intro fc. unfold df_drop. destruct (drop labels (df fc)); simpl; auto.
Qed.

Lemma frame_only_lift {A : Type} (r : Exn + A) : frame_only (lift r).
Proof.
  split.
  - intros fc1 fc2 H. unfold lift. destruct r; simpl; auto.
  - intro fc. unfold lift. destruct r; simpl; auto.
Qed.

Ltac prove_frame_only :=
  repeat first
    [ apply frame_only_bind; [|intro]
    | apply frame_only_getitem
    | apply frame_only_setitem
    | apply frame_only_drop
    | apply frame_only_lift
    | apply frame_only_ret ].

Lemma guarded_registry name f a body fc :
  frame_only body ->
  indicators (state_of (guarded name f a body fc))
  = dict_set name (mkIndicator a f) (indicators fc)
  /\ max_size (state_of (guarded name f a body fc)) = max_size fc.
Proof.
  intros [_ Hb]. unfold guarded, bind, _save_indicator.
  destruct (negb (negb (empty (df fc)))).
  - simpl. auto.
  - match goal with |- context [body ?st] => destruct (Hb st) as [Hi Hx] end.
    rewrite Hi, Hx. simpl. auto.
Qed.

Lemma guarded_name_blind n1 n2 f a1 a2 body fc :
  frame_only body ->
  sim (guarded n1 f a1 body fc) (guarded n2 f a2 body fc).
Proof.
  intros [Hb _]. unfold guarded, bind, _save_indicator.
  destruct (negb (negb (empty (df fc)))).
  - simpl. auto.
  - apply Hb. reflexivity.
Qed.

Lemma register_guarded a :
  exists body, frame_only body /\
    forall name, register (rename name a)
                 = guarded name (method a) (rename name a) body.
Proof.
  destruct a as [fast slow macd_period name|period name|period std name];
    eexists; (split; [|intro n; unfold register, call, spec_of;
                       cbn [func args method rename];
                       first [unfold macd | unfold atr | unfold bbands];
                       unfold guarded; reflexivity]);
    prove_frame_only.
Qed.

Lemma rename_name_of a : rename (name_of a) a = a.
Proof. now destruct a. Qed.

Lemma method_rename n a : method (rename n a) = method a.
Proof. now destruct a. Qed.

Lemma name_of_rename n a : name_of (rename n a) = n.
Proof. now destruct a. Qed.

(** Whatever the outcome, a registration call stores its spec under its
    name and leaves the capacity alone. *)
Lemma register_registry a fc :
  indicators (state_of (register a fc))
  = dict_set (name_of a) (spec_of a) (indicators fc)
  /\ max_size (state_of (register a fc)) = max_size fc.
Proof.
  destruct (register_guarded a) as (body & Hbody & Heq).
  specialize (Heq (name_of a)). rewrite rename_name_of in Heq.
  rewrite Heq. exact (guarded_registry (name_of a) (method a) a body fc Hbody).
Qed.

(** ** The registry *)

Lemma keys_dict_set {V : Type} k (v : V) reg :
  keys (dict_set k v reg) = add_name k (keys reg).
Proof.
  unfold add_name, mem, keys.
  induction reg as [|[k' v'] rest IH]; simpl; [reflexivity|].
  destruct (String.eqb k k'); simpl; [reflexivity|].
  rewrite IH. now destruct (existsb (String.eqb k) (map fst rest)).
Qed.

Lemma mem_In c l : mem c l = true <-> In c l.
Proof.
  unfold mem. rewrite existsb_exists. split.
  - intros (x & Hin & Heq). apply String.eqb_eq in Heq. now subst x.
  - intro Hin. exists c. split; [exact Hin | apply String.eqb_refl].
Qed.

Lemma NoDup_add_name c l : NoDup l -> NoDup (add_name c l).
Proof.
  intro H. unfold add_name. destruct (mem c l) eqn:E; [exact H|].
  apply NoDup_app; [exact H | repeat constructor; intros [] |].
  intros x Hx [<-|[]]. apply mem_In in Hx. congruence.
Qed.

Lemma Forall_dict_set {V : Type} (P : string * V -> Prop) k v reg :
  Forall P reg -> P (k, v) -> Forall P (dict_set k v reg).
Proof.
  intros Hreg Hkv. induction Hreg as [|[k' v'] rest Hx Hrest IH]; simpl.
  - repeat constructor. exact Hkv.
  - destruct (String.eqb k k') eqn:E.
    + apply String.eqb_eq in E. subst k'. constructor; assumption.
    + constructor; assumption.
Qed.

Lemma dict_set_present {V : Type} k (v : V) reg :
  NoDup (keys reg) -> In (k, v) reg -> dict_set k v reg = reg.
Proof.
  induction reg as [|[k' v'] rest IH]; intros Hnd Hin; [destruct Hin|].
  simpl in Hnd. inversion Hnd as [|x l Hnotin Hnd']; subst.
  simpl. destruct (String.eqb k k') eqn:E.
  - apply String.eqb_eq in E. subst k'.
    destruct Hin as [Heq|Hin]; [now injection Heq as -> |].
    exfalso. apply Hnotin. unfold keys. change k with (fst (k, v)).
    now apply in_map.
  - destruct Hin as [Heq|Hin].
    + injection Heq as -> ->. now rewrite String.eqb_refl in E.
    + now rewrite IH.
Qed.

Lemma registry_ok_init max_size : registry_ok (indicators (init max_size)).
Proof. split; constructor. Qed.

(** Registration calls keep the registry well formed. *)
Lemma registry_ok_register a fc :
  registry_ok (indicators fc) ->
  registry_ok (indicators (state_of (register a fc))).
Proof.
  intros [Hnd Hall]. rewrite (proj1 (register_registry a fc)). split.
  - rewrite keys_dict_set. now apply NoDup_add_name.
  - apply Forall_dict_set; [exact Hall|]. split; reflexivity.
Qed.

Lemma call_entry k ind :
  entry_ok (k, ind) -> call ind = register (args ind) /\ name_of (args ind) = k
  /\ spec_of (args ind) = ind.
Proof.
  intros [Hname Hfunc]. simpl in Hname, Hfunc.
  destruct ind as [a f]. simpl in *. subst f. unfold register, spec_of. auto.
Qed.

(** Replaying a stored entry leaves the registry as it is. *)
Lemma call_keeps_registry fc k ind :
  registry_ok (indicators fc) -> In (k, ind) (indicators fc) ->
  indicators (state_of (call ind fc)) = indicators fc.
Proof.
  intros [Hnd Hall] Hin.
  assert (Hok : entry_ok (k, ind)) by (rewrite Forall_forall in Hall; auto).
  destruct (call_entry k ind Hok) as (Hcall & Hname & Hspec).
  rewrite Hcall, (proj1 (register_registry (args ind) fc)), Hname, Hspec.
  now apply dict_set_present.
Qed.

(** [update] on a well-formed registry: the loop over the live dict is the
    sequence of the stored calls in dict order. *)
Lemma update_loop_call_all fuel :
  forall pos fc,
    registry_ok (indicators fc) ->
    (pos <= List.length (indicators fc))%nat ->
    (List.length (indicators fc) - pos < fuel)%nat ->
    update_loop fuel pos (List.length (indicators fc)) fc
    = call_all (map snd (skipn pos (indicators fc))) fc.
Proof.
  induction fuel as [|fuel IH]; intros pos fc Hok Hpos Hfuel; [lia|].
  simpl update_loop. rewrite Nat.eqb_refl. cbn [negb].
  destruct (nth_error (indicators fc) pos) as [[k ind]|] eqn:Hnth.
  - assert (Hin : In (k, ind) (indicators fc)) by (eapply nth_error_In; eauto).
    assert (Hlt : (pos < List.length (indicators fc))%nat)
      by (apply nth_error_Some; congruence).
    assert (Hskip : skipn pos (indicators fc)
                    = (k, ind) :: skipn (S pos) (indicators fc)).
    { clear - Hnth. revert pos Hnth.
      induction (indicators fc) as [|x l IHl]; intros [|pos] Hnth;
        simpl in *; try discriminate.
      - now injection Hnth as ->.
      - now apply IHl. }
    rewrite Hskip. simpl map. simpl call_all. unfold bind.
    pose proof (call_keeps_registry fc k ind Hok Hin) as Hreg.
    destruct (call ind fc) as [[] fc'|e fc']; simpl in Hreg; [|reflexivity].
    rewrite <- Hreg. apply IH; rewrite Hreg; [exact Hok|lia|lia].
  - apply nth_error_None in Hnth. rewrite skipn_all2 by exact Hnth.
    reflexivity.
Qed.

Lemma update_call_all fc :
  registry_ok (indicators fc) ->
  update fc = call_all (map snd (indicators fc)) fc.
Proof.
  intro Hok. unfold update.
  rewrite (update_loop_call_all _ 0 fc Hok); [reflexivity|lia|lia].
Qed.

Lemma registered_same k ind fc :
  registry_ok (indicators fc) -> In (k, ind) (indicators fc) ->
  registered k ind (df fc) fc = fc.
Proof.
  intros [Hnd _] Hin. unfold registered.
  rewrite dict_set_present by assumption. now destruct fc.
Qed.

Lemma call_all_on_empty fc (entries : list (string * Indicator)) :
  registry_ok (indicators fc) -> incl entries (indicators fc) ->
  empty (df fc) = true ->
  call_all (map snd entries) fc = Return tt fc.
Proof.
  intros Hok Hincl He.
  induction entries as [|[k ind] rest IH]; [reflexivity|].
  simpl. unfold bind.
  assert (Hin : In (k, ind) (indicators fc)) by (apply Hincl; now left).
  assert (Hentry : entry_ok (k, ind))
    by (destruct Hok as [_ Hall]; rewrite Forall_forall in Hall; auto).
  destruct (call_entry k ind Hentry) as (Hcall & Hname & Hspec).
  rewrite Hcall, (register_on_empty _ fc He), Hname, Hspec.
  rewrite (registered_same k ind fc Hok Hin).
  apply IH. intros x Hx. apply Hincl. now right.
Qed.

(** ** One value per retained bar *)

Lemma lookup_length c cols s (n : nat) :
  Forall (fun x : string * Series => List.length (snd x) = n) cols ->
  lookup c cols = Some s -> List.length s = n.
Proof.
  induction cols as [|[k v] rest IH]; intros Hall Hget; [discriminate|].
  apply Forall_cons_iff in Hall. destruct Hall as [Hv Hrest].
  simpl in Hget. destruct (String.eqb c k).
  - injection Hget as <-. exact Hv.
  - exact (IH Hrest Hget).
Qed.

Lemma getitem_length c d s :
  frame_ok d -> getitem c d = Some s -> List.length s = len d.
Proof. apply lookup_length. Qed.

Lemma length_zip_with f a b :
  List.length (zip_with f a b) = Nat.min (List.length a) (List.length b).
Proof.
  revert b. induction a as [|x a IH]; intros [|y b]; simpl; auto.
Qed.

Lemma length_row_max3 a b c :
  List.length (row_max3 a b c)
  = Nat.min (List.length a) (Nat.min (List.length b) (List.length c)).
Proof.
  revert b c. induction a as [|x a IH]; intros [|y b] [|z c]; simpl; auto.
Qed.

Lemma length_shift1 s : List.length (shift1 s) = List.length s.
Proof.
  destruct s as [|x s]; [reflexivity|].
  unfold shift1. cbn [List.length]. f_equal.
  generalize x. induction s as [|y s IH]; intro x0; [reflexivity|].
  simpl in *. now rewrite IH.
Qed.

Lemma length_rolling_mean w s :
  List.length (rolling_mean w s) = List.length s.
Proof. unfold rolling_mean. now rewrite length_map, length_seq. Qed.

Lemma length_rolling_std w s :
  List.length (rolling_std w s) = List.length s.
Proof. unfold rolling_std. now rewrite length_map, length_seq. Qed.

Lemma length_ewm_run alpha minp st s :
  List.length (ewm_run alpha minp st s) = List.length s.
Proof.
  revert st. induction s as [|x s IH]; intro st; simpl; [reflexivity|].
  now rewrite IH.
Qed.

Lemma length_ewm_mean span minp s r :
  ewm_mean span minp s = inr r -> List.length r = List.length s.
Proof.
  unfold ewm_mean. destruct (span <? 1); [discriminate|].
  destruct s as [|x s]; intro H; injection H as <-; [reflexivity|].
  simpl. now rewrite length_ewm_run.
Qed.

Lemma series_of_length a d s :
  frame_ok d -> series_of a d = Some s -> List.length s = len d.
Proof.
  intros Hok.
  destruct a as [fast slow macd_period name|period name|period std name];
    simpl.
  - unfold macd_series.
    destruct (getitem "close" d) as [close|] eqn:Hc; [|discriminate].
    destruct (ewm_mean fast fast close) as [|f] eqn:Hf; [discriminate|].
    destruct (ewm_mean slow slow close) as [|sl] eqn:Hs; [discriminate|].
    destruct (ewm_mean macd_period macd_period (s_sub f sl)) as [|m] eqn:Hm;
      [discriminate|].
    intro H. injection H as <-.
    rewrite (length_ewm_mean _ _ _ _ Hm). unfold s_sub.
    rewrite length_zip_with, (length_ewm_mean _ _ _ _ Hf),
      (length_ewm_mean _ _ _ _ Hs), (getitem_length _ _ _ Hok Hc). lia.
  - unfold atr_series.
    destruct (getitem "high" d) as [high|] eqn:Hh; [|discriminate].
    destruct (getitem "low" d) as [low|] eqn:Hl; [|discriminate].
    destruct (getitem "close" d) as [close|] eqn:Hc; [|discriminate].
    destruct (rolling period) as [|w]; [discriminate|].
    intro H. injection H as <-.
    rewrite length_rolling_mean, length_row_max3. unfold s_abs, s_sub.
    rewrite !length_map, !length_zip_with, length_shift1,
      (getitem_length _ _ _ Hok Hh), (getitem_length _ _ _ Hok Hl),
      (getitem_length _ _ _ Hok Hc). lia.
  - unfold bbands_series.
    destruct (getitem "close" d) as [close|] eqn:Hc; [|discriminate].
    destruct (rolling period) as [|w]; [discriminate|].
    intro H. injection H as <-. unfold s_div, s_sub, s_add, s_scale.
    repeat first
      [ rewrite length_zip_with | rewrite length_map
      | rewrite length_rolling_std | rewrite length_rolling_mean ].
    rewrite (getitem_length _ _ _ Hok Hc). lia.
Qed.

(** ** Writing the same output column twice *)

Lemma lookup_filter_kept c labels cols :
  mem c labels = false ->
  lookup c (filter (fun x => negb (mem (fst x) labels)) cols) = lookup c cols.
Proof.
  intro Hout. induction cols as [|[k v] rest IH]; simpl; [reflexivity|].
  destruct (mem k labels) eqn:Hk; simpl.
  - destruct (String.eqb c k) eqn:E; [|exact IH].
    apply String.eqb_eq in E. subst k. congruence.
  - now rewrite IH.
Qed.

Lemma getitem_without c labels d :
  mem c labels = false -> getitem c (without labels d) = getitem c d.
Proof. apply lookup_filter_kept. Qed.

Lemma without_without labels d : without labels (without labels d) = without labels d.
Proof.
  unfold without. simpl. f_equal.
  induction (columns d) as [|[k v] rest IH]; simpl; [reflexivity|].
  destruct (mem k labels) eqn:Hk; simpl; [exact IH|].
  rewrite Hk. simpl. now rewrite IH.
Qed.

Lemma assign_assign c s cols : assign c s (assign c s cols) = assign c s cols.
Proof.
  induction cols as [|[k v] rest IH]; simpl.
  - now rewrite String.eqb_refl.
  - destruct (String.eqb c k) eqn:E; simpl; rewrite E; [reflexivity|].
    now rewrite IH.
Qed.

Lemma setitem_setitem c s d : setitem c s (setitem c s d) = setitem c s d.
Proof. unfold setitem. simpl. now rewrite assign_assign. Qed.

Lemma empty_after_write c s labels d :
  empty d = false -> empty (setitem c s (without labels d)) = false.
Proof.
  unfold empty, setitem, without. simpl. destruct (index d); [discriminate|].
  intros _.
  now destruct (filter _ (columns d)) as [|[k v] rest]; simpl;
    [|destruct (String.eqb c k)].
Qed.

(** The output and scratch columns are not inputs: a computed frame yields
    the same series again. *)
Lemma series_of_written a s d :
  series_of a (setitem (output_column a) s (without (scratch a) d))
  = series_of a d.
Proof.
  destruct a as [fast slow macd_period name|period name|period std name];
    simpl; unfold macd_series, atr_series, bbands_series;
    rewrite !getitem_setitem_neq by (intro; discriminate);
    rewrite !getitem_without by reflexivity; reflexivity.
Qed.

Lemma written_twice a s d :
  setitem (output_column a) s
    (without (scratch a) (setitem (output_column a) s (without (scratch a) d)))
  = setitem (output_column a) s (without (scratch a) d).
Proof.
  rewrite without_setitem_kept by (now destruct a).
  now rewrite without_without, setitem_setitem.
Qed.

Lemma series_of_rename n a d : series_of (rename n a) d = series_of a d.
Proof. now destruct a. Qed.

Lemma output_column_rename n a : output_column (rename n a) = output_column a.
Proof. now destruct a. Qed.

Lemma scratch_rename n a : scratch (rename n a) = scratch a.
Proof. now destruct a. Qed.

Lemma In_add_name c x l : In x (add_name c l) <-> x = c \/ In x l.
Proof.
  unfold add_name. destruct (mem c l) eqn:E.
  - split; [auto|]. intros [->|H]; [now apply mem_In|exact H].
  - rewrite in_app_iff. simpl. intuition.
Qed.

(** ** Registration, replay and the empty frame *)

(** C6, as amended: a registration call always stores (or overwrites) the
    spec under its name, a new name going last in the registry.  Whether it
    computes depends on the frame at the time of the call, not on the call
    being the first: on an empty frame it only records; on a non-empty frame
    whose inputs are present it writes the indicator computed from the whole
    retained columns, one value per retained bar.  On a registry built by
    registration calls [update] is the sequence of the stored calls in
    registry order. *)
Theorem registration_records_and_computes (a : Kwargs) (fc : FrameClient) :
  indicators (state_of (register a fc))
  = dict_set (name_of a) (spec_of a) (indicators fc)
  /\ keys (indicators (state_of (register a fc)))
     = add_name (name_of a) (keys (indicators fc))
  /\ (empty (df fc) = true ->
      register a fc
      = Return tt (registered (name_of a) (spec_of a) (df fc) fc))
  /\ (forall s : Series,
      empty (df fc) = false ->
      series_of a (df fc) = Some s ->
      register a fc
      = Return tt
          (registered (name_of a) (spec_of a)
             (setitem (output_column a) s (without (scratch a) (df fc))) fc)
      /\ (frame_ok (df fc) -> List.length s = len (df fc)))
  /\ (registry_ok (indicators fc) ->
      update fc = call_all (map snd (indicators fc)) fc).
Proof.
  split; [exact (proj1 (register_registry a fc))|].
  split; [rewrite (proj1 (register_registry a fc)); apply keys_dict_set|].
  split; [apply register_on_empty|].
  split; [|apply update_call_all].
  intros s Hne Hs. split; [now apply register_computes|].
  intro Hok. exact (series_of_length a (df fc) s Hok Hs).
Qed.

Lemma registration_records_and_computes_witness :
  register (MacdArgs 2 3 2 "macd") (init 1000)
  = Return tt
      (registered "macd" (spec_of (MacdArgs 2 3 2 "macd")) new_frame (init 1000))
  /\ (exists s : Series,
        register (MacdArgs 2 3 2 "macd") demo_buffer
        = Return tt
            (registered "macd" (spec_of (MacdArgs 2 3 2 "macd"))
               (setitem "macd" s (without macd_scratch (df demo_buffer)))
               demo_buffer)
        /\ List.length s = 4%nat)
  /\ update (state_of (register (AtrArgs 2 "atr")
                         (state_of (register (MacdArgs 2 3 2 "macd")
                                      demo_buffer))))
     = call_all [spec_of (MacdArgs 2 3 2 "macd"); spec_of (AtrArgs 2 "atr")]
         (state_of (register (AtrArgs 2 "atr")
                      (state_of (register (MacdArgs 2 3 2 "macd")
                                   demo_buffer)))).
Proof.
  split; [|split].
  - exact (proj1 (proj2 (proj2
             (registration_records_and_computes (MacdArgs 2 3 2 "macd")
                (init 1000)))) eq_refl).
  - destruct (series_of (MacdArgs 2 3 2 "macd") (df demo_buffer)) as [s|] eqn:Hs;
      [|vm_compute in Hs; discriminate Hs].
    exists s.
    destruct (proj1 (proj2 (proj2 (proj2
                (registration_records_and_computes (MacdArgs 2 3 2 "macd")
                   demo_buffer)))) s eq_refl Hs) as [Hrun Hlen].
    split; [exact Hrun|]. apply Hlen.
    repeat constructor.
  - apply (proj2 (proj2 (proj2 (proj2
             (registration_records_and_computes (AtrArgs 2 "atr")
                (state_of (register (AtrArgs 2 "atr")
                             (state_of (register (MacdArgs 2 3 2 "macd")
                                          demo_buffer))))))))).
    apply registry_ok_register, registry_ok_register.
    vm_compute. split; constructor.
Defined.

(** C6, as worded, fails: a second [macd] call on a buffer that is still
    empty, direct or replayed by [update], is a later invocation and
    computes nothing: the state it returns is the state it was given and
    the frame has no ['macd'] column. *)
Lemma later_invocation_on_empty_buffer_counterexample :
  keys (indicators (state_of (macd 12 26 9 "macd" (init 1000)))) = ["macd"]
  /\ macd 12 26 9 "macd" (state_of (macd 12 26 9 "macd" (init 1000)))
     = Return tt (state_of (macd 12 26 9 "macd" (init 1000)))
  /\ update (state_of (macd 12 26 9 "macd" (init 1000)))
     = Return tt (state_of (macd 12 26 9 "macd" (init 1000)))
  /\ df (state_of (macd 12 26 9 "macd" (init 1000))) = new_frame
  /\ has_column "macd" (df (state_of (macd 12 26 9 "macd" (init 1000))))
     = false.
Proof. repeat split. Qed.

(** C9: while the frame is empty, [update] over any registry built by
    registration calls, and any registration call, return without raising
    and leave the frame as it is, with no column added. *)
Theorem empty_frame_untouched (fc : FrameClient) :
  registry_ok (indicators fc) ->
  empty (df fc) = true ->
  update fc = Return tt fc
  /\ forall a : Kwargs,
       exists fc' : FrameClient,
         register a fc = Return tt fc'
         /\ df fc' = df fc
         /\ column_names (df fc') = column_names (df fc)
         /\ empty (df fc') = true.
Proof.
  intros Hok He. split.
  - rewrite (update_call_all fc Hok).
    apply call_all_on_empty; [exact Hok | apply incl_refl | exact He].
  - intro a. eexists. split; [apply (register_on_empty a fc He)|].
    simpl. auto.
Qed.

Lemma empty_frame_untouched_witness :
  update (state_of (bbands 20 2 "bbands"
                      (state_of (macd 12 26 9 "macd" (init 1000)))))
  = Return tt (state_of (bbands 20 2 "bbands"
                           (state_of (macd 12 26 9 "macd" (init 1000)))))
  /\ exists fc' : FrameClient,
       register (AtrArgs 20 "atr")
         (state_of (bbands 20 2 "bbands"
                      (state_of (macd 12 26 9 "macd" (init 1000)))))
       = Return tt fc'
       /\ df fc' = new_frame.
Proof.
  assert (Hok : registry_ok
                  (indicators
                     (state_of (bbands 20 2 "bbands"
                                  (state_of (macd 12 26 9 "macd" (init 1000))))))).
  { apply (registry_ok_register (BbandsArgs 20 2 "bbands")).
    apply (registry_ok_register (MacdArgs 12 26 9 "macd")).
    apply registry_ok_init. }
  destruct (empty_frame_untouched _ Hok eq_refl) as [Hupdate Hreg].
  split; [exact Hupdate|].
  destruct (Hreg (AtrArgs 20 "atr")) as (fc' & Hrun & Hdf & _).
  exists fc'. split; [exact Hrun | exact Hdf].
Defined.

(** ** The [name] parameter *)

(** C10: [name] selects the registry key and nothing else.  Two calls that
    differ in [name] only end alike and leave the same frame; the key
    stored is [name]; a computing call writes the one column ['macd'],
    ['atr'] or ['bbands_percent'] of its method; and registering an
    indicator under a second name writes that same column again, so two
    registry entries share one output column. *)
Theorem name_selects_registry_key_only
  (a : Kwargs) (n1 n2 : string) (fc : FrameClient) :
  sim (register (rename n1 a) fc) (register (rename n2 a) fc)
  /\ keys (indicators (state_of (register (rename n1 a) fc)))
     = add_name n1 (keys (indicators fc))
  /\ output_column a
     = match method a with
       | Fmacd => "macd"
       | Fatr => "atr"
       | Fbbands => "bbands_percent"
       end
  /\ (forall s : Series,
      empty (df fc) = false ->
      series_of a (df fc) = Some s ->
      let fc1 := state_of (register (rename n1 a) fc) in
      let fc2 := state_of (register (rename n2 a) fc1) in
      df fc1 = setitem (output_column a) s (without (scratch a) (df fc))
      /\ column_names (df fc1)
         = add_name (output_column a) (column_names (without (scratch a) (df fc)))
      /\ df fc2 = df fc1
      /\ In n1 (keys (indicators fc2))
      /\ In n2 (keys (indicators fc2))).
Proof.
  split.
  { destruct (register_guarded a) as (body & Hbody & Heq).
    rewrite (Heq n1), (Heq n2). now apply guarded_name_blind. }
  split.
  { rewrite (proj1 (register_registry (rename n1 a) fc)), keys_dict_set.
    now rewrite name_of_rename. }
  split; [now destruct a|].
  intros s Hne Hs. cbv zeta.
  pose proof (register_computes (rename n1 a) fc s Hne) as H1.
  rewrite series_of_rename, output_column_rename, scratch_rename in H1.
  specialize (H1 Hs). rewrite H1. cbn [state_of].
  set (fc1 := registered (name_of (rename n1 a)) (spec_of (rename n1 a))
                (setitem (output_column a) s (without (scratch a) (df fc))) fc).
  assert (Hne1 : empty (df fc1) = false) by (now apply empty_after_write).
  assert (Hs1 : series_of a (df fc1) = Some s)
    by (simpl df; now rewrite series_of_written).
  pose proof (register_computes (rename n2 a) fc1 s Hne1) as H2.
  rewrite series_of_rename, output_column_rename, scratch_rename in H2.
  specialize (H2 Hs1). rewrite H2. cbn [state_of].
  split; [reflexivity|].
  split; [apply column_names_setitem|].
  split; [simpl df; apply written_twice|].
  subst fc1. unfold registered. cbn [indicators].
  rewrite !keys_dict_set, !name_of_rename.
  split; apply In_add_name; [right; apply In_add_name|]; now left.
Qed.

Lemma name_selects_registry_key_only_witness :
  df (state_of (register (BbandsArgs 2 2 "fast_bands")
                  (state_of (register (BbandsArgs 2 2 "bbands") demo_buffer))))
  = df (state_of (register (BbandsArgs 2 2 "bbands") demo_buffer))
  /\ column_names (df (state_of (register (BbandsArgs 2 2 "bbands") demo_buffer)))
     = ["open"; "high"; "low"; "close"; "volume"; "bbands_percent"].
Proof.
  destruct (series_of (BbandsArgs 2 2 "bbands") (df demo_buffer)) as [s|] eqn:Hs;
    [|vm_compute in Hs; discriminate Hs].
  destruct (proj2 (proj2 (proj2
              (name_selects_registry_key_only (BbandsArgs 2 2 "bbands")
                 "bbands" "fast_bands" demo_buffer))) s eq_refl Hs)
    as (_ & Hnames & Hsame & _).
  split; [exact Hsame|].
  etransitivity; [exact Hnames|reflexivity].
Defined.

(** ** Bollinger bands *)

(** C3 at its failing input: on closes 1, 2, 4, 8 with [period = 2] the
    stored %b is missing at the second bar, where two observations of
    [close] exist and %b over the deviation of [close] is defined: the
    deviation is taken over the moving average, which needs [2*period - 1]
    bars. *)
Theorem bbands_deviation_of_moving_average :
  exists s : Series,
    bbands 2 2 "bbands" demo_buffer
    = Return tt
        (registered "bbands" (spec_of (BbandsArgs 2 2 "bbands"))
           (setitem "bbands_percent" s (df demo_buffer)) demo_buffer)
    /\ map is_nan s = [true; true; false; false]
    /\ map is_nan (bbands_percent_of_close 2 2 [1; 2; 4; 8]%float)
       = [true; false; false; false]
    /\ s <> bbands_percent_of_close 2 2 [1; 2; 4; 8]%float.
Proof.
  eexists. split; [vm_compute; reflexivity|].
  split; [reflexivity|]. split; [reflexivity|].
  intro H. apply (f_equal (map is_nan)) in H. vm_compute in H. discriminate H.
Qed.

(** A flat market: the band has zero width, %b is [0/0] and the call
    returns with NaN in the column. *)
Lemma bbands_zero_width_is_nan :
  exists s : Series,
    bbands 2 2 "bbands"
      (add_rows (bars [1; 2; 3; 4] [5; 5; 5; 5]%float) (init 1000))
    = Return tt
        (registered "bbands" (spec_of (BbandsArgs 2 2 "bbands"))
           (setitem "bbands_percent" s (bars [1; 2; 3; 4] [5; 5; 5; 5]%float))
           (add_rows (bars [1; 2; 3; 4] [5; 5; 5; 5]%float) (init 1000)))
    /\ map is_nan s = [true; true; true; true].
Proof. eexists. split; [vm_compute; reflexivity|reflexivity]. Qed.

(** * Further properties of the buffer *)

(** ** [get_last_bars] *)

Lemma getitem_iloc_from c k d :
  getitem c (iloc_from k d) = option_map (skipn k) (getitem c d).
Proof.
  unfold getitem, iloc_from. simpl.
  induction (columns d) as [|[n v] rest IH]; simpl; [reflexivity|].
  destruct (String.eqb c n); [reflexivity|exact IH].
Qed.

(** X1: for [n >= 1], [get_last_bars(n)] is the newest [min(n, len)] bars in
    buffer order, all of them when [n] exceeds the length; for [n = 0] the
    slice [-0:] is the whole buffer, not an empty frame. *)
Theorem get_last_bars_newest (n : Z) (fc : FrameClient) :
  (1 <= n ->
   get_last_bars n fc = iloc_from (len (df fc) - Z.to_nat n) (df fc)
   /\ index (get_last_bars n fc)
      = skipn (len (df fc) - Z.to_nat n) (index (df fc))
   /\ len (get_last_bars n fc) = Nat.min (Z.to_nat n) (len (df fc))
   /\ forall c, getitem c (get_last_bars n fc)
                = option_map (skipn (len (df fc) - Z.to_nat n))
                             (getitem c (df fc)))
  /\ (n = 0 -> get_last_bars n fc = df fc).
Proof.
  split.
  - intro Hn.
    assert (Heq : get_last_bars n fc
                  = iloc_from (len (df fc) - Z.to_nat n) (df fc)).
    { unfold get_last_bars, iloc_tail, slice_start.
      destruct (- n <? 0) eqn:E; [|apply Z.ltb_ge in E; lia].
      f_equal. lia. }
    rewrite Heq. split; [reflexivity|]. split; [apply index_iloc_from|].
    split; [rewrite len_iloc_from; lia | intro c; apply getitem_iloc_from].
  - intros ->. unfold get_last_bars, iloc_tail, slice_start. simpl.
    apply iloc_from_0.
Qed.

Lemma get_last_bars_newest_witness :
  index (get_last_bars 2 demo_buffer) = [3; 4]
  /\ index (get_last_bars 9 demo_buffer) = [1; 2; 3; 4]
  /\ get_last_bars 0 demo_buffer = df demo_buffer.
Proof.
  destruct (get_last_bars_newest 2 demo_buffer) as [H2 _].
  destruct (get_last_bars_newest 9 demo_buffer) as [H9 _].
  destruct (get_last_bars_newest 0 demo_buffer) as [_ H0].
  destruct (H2 ltac:(lia)) as (_ & Hix2 & _).
  destruct (H9 ltac:(lia)) as (_ & Hix9 & _).
  split; [exact Hix2|]. split; [exact Hix9|]. exact (H0 eq_refl).
Defined.

(** ** The newest bar after [add_rows] *)

Lemma last_app_nonempty (a b : list Z) :
  b <> [] -> List.last (a ++ b) 0 = List.last b 0.
Proof.
  intro Hb. induction a as [|x a IH]; [reflexivity|].
  simpl app. destruct (a ++ b) eqn:E.
  - destruct a; [simpl in E; congruence | discriminate E].
  - rewrite <- E in *. simpl. rewrite E. rewrite <- E. exact IH.
Qed.

Lemma last_skipn (k : nat) (l : list Z) :
  (k < List.length l)%nat -> List.last (skipn k l) 0 = List.last l 0.
Proof.
  revert l. induction k as [|k IH]; intros l Hk; [reflexivity|].
  destruct l as [|x l]; [simpl in Hk; lia|].
  simpl skipn. rewrite IH by (simpl in Hk; lia).
  destruct l; [simpl in Hk; lia | reflexivity].
Qed.

Lemma nth_last (l : list Z) :
  nth (List.length l - 1) l 0 = List.last l 0.
Proof.
  induction l as [|x l IH]; [reflexivity|].
  destruct l as [|y l]; [reflexivity|].
  simpl List.length in *. replace (S (S (List.length l)) - 1)%nat
    with (S (List.length l)) by lia.
  replace (S (List.length l) - 1)%nat with (List.length l) in IH by lia.
  exact IH.
Qed.

Lemma skipn_nil_length {A : Type} (k : nat) (l : list A) :
  skipn k l = [] -> (List.length l <= k)%nat.
Proof.
  intro H. apply (f_equal (@List.length A)) in H.
  rewrite length_skipn in H. simpl in H. lia.
Qed.

Lemma last_index_evict fc :
  1 <= max_size fc -> List.last (index (df (evict fc))) 0
                      = List.last (index (df fc)) 0.
Proof.
  intro Hcap. rewrite evict_iloc, index_iloc_from.
  destruct (index (df fc)) as [|x l] eqn:E.
  - now rewrite skipn_nil.
  - apply last_skipn. unfold len. rewrite E. simpl List.length. lia.
Qed.

(** X3: with room for at least one bar, the newest timestamp of the buffer
    after [add_rows(rows)] is the newest timestamp of [rows], whichever
    branch of the merge is taken. *)
Theorem add_rows_newest_timestamp (rows : DataFrame) (fc : FrameClient) :
  index rows <> [] ->
  1 <= max_size fc ->
  List.last (index (df (add_rows rows fc))) 0 = List.last (index rows) 0.
Proof.
  intros Hrows Hcap. unfold add_rows.
  set (i := if negb (empty (df fc))
            then scan (List.last (index (df fc)) 0) (index rows) 0
            else 0%nat).
  destruct ((i =? len rows)%nat || (i =? 0)%nat) eqn:Hbranch.
  - rewrite last_index_evict by exact Hcap. simpl df.
    rewrite index_append. now apply last_app_nonempty.
  - rewrite last_index_evict by exact Hcap. simpl df.
    rewrite index_append, index_iloc_from.
    apply orb_false_iff in Hbranch. destruct Hbranch as [Hlen H0].
    apply Nat.eqb_neq in Hlen. apply Nat.eqb_neq in H0.
    destruct (empty (df fc)) eqn:He; [subst i; simpl in H0; congruence|].
    subst i. simpl negb in *. cbv iota in *.
    rewrite scan_first_index in *. simpl Nat.add in *.
    set (i := first_index (Z.eqb (List.last (index (df fc)) 0)) (index rows))
      in *.
    pose proof (first_index_le (Z.eqb (List.last (index (df fc)) 0))
                  (index rows)) as Hle. fold i in Hle.
    assert (Hlt : (i < List.length (index rows))%nat) by (unfold len in Hlen; lia).
    pose proof (first_index_hit _ _ Hlt) as Hhit. fold i in Hhit.
    apply Z.eqb_eq in Hhit.
    destruct (skipn (S i) (index rows)) as [|y tl] eqn:Hskip.
    + apply skipn_nil_length in Hskip. rewrite app_nil_r.
      rewrite Hhit. replace i with (List.length (index rows) - 1)%nat by lia.
      apply nth_last.
    + rewrite last_app_nonempty by discriminate. rewrite <- Hskip.
      apply last_skipn.
      destruct (Nat.lt_ge_cases (S i) (List.length (index rows))) as [H|H];
        [exact H|].
      rewrite skipn_all2 in Hskip by exact H. discriminate Hskip.
Qed.

Lemma add_rows_newest_timestamp_witness :
  List.last (index (df (add_rows (bars [4; 5; 6] [8; 9; 7]%float) demo_buffer)))
            0 = 6.
Proof.
  exact (add_rows_newest_timestamp (bars [4; 5; 6] [8; 9; 7]%float) demo_buffer
           ltac:(discriminate) ltac:(simpl; lia)).
Defined.

(** ** The first fill *)

Lemma append_new_frame rows : append new_frame rows = rows.
Proof.
  destruct rows as [ix cols]. unfold append, new_frame. simpl. f_equal.
  induction cols as [|[n v] rest IH]; simpl; [reflexivity|]. now rewrite IH.
Qed.

Lemma add_rows_new_frame rows fc :
  df fc = new_frame ->
  df (add_rows rows fc)
  = iloc_from (Z.to_nat (Z.of_nat (len rows) - max_size fc)) rows.
Proof.
  intro Hnew. unfold add_rows. rewrite Hnew. simpl negb. cbv iota.
  rewrite orb_true_r, evict_iloc. simpl df. simpl max_size.
  now rewrite append_new_frame.
Qed.

(** X2: on a buffer that holds nothing yet, [add_rows(rows)] keeps the newest
    [max_size] rows of [rows], and [rows] itself when it fits. *)
Theorem add_rows_first_fill (rows : DataFrame) (fc : FrameClient) :
  df fc = new_frame ->
  df (add_rows rows fc)
  = iloc_from (Z.to_nat (Z.of_nat (len rows) - max_size fc)) rows
  /\ (Z.of_nat (len rows) <= max_size fc -> df (add_rows rows fc) = rows).
Proof.
  intro Hnew. rewrite (add_rows_new_frame rows fc Hnew).
  split; [reflexivity|].
  intro Hfit. replace (Z.to_nat _) with 0%nat by lia. apply iloc_from_0.
Qed.

Lemma add_rows_first_fill_witness :
  df (add_rows (bars [1; 2; 3] [5; 6; 7]%float) (init 1000))
  = bars [1; 2; 3] [5; 6; 7]%float.
Proof.
  exact (proj2 (add_rows_first_fill (bars [1; 2; 3] [5; 6; 7]%float)
                  (init 1000) eq_refl) ltac:(simpl; lia)).
Defined.

(** ** Columns stay as long as the index *)

Lemma length_nans n : List.length (nans n) = n.
Proof. apply repeat_length. Qed.

Lemma frame_ok_append d other :
  frame_ok d -> frame_ok other -> frame_ok (append d other).
Proof.
  intros Hd Ho. unfold frame_ok, append, len in *. simpl.
  rewrite length_app. apply Forall_app. split.
  - rewrite Forall_map. eapply Forall_impl; [|exact Hd].
    intros [n v] Hv. simpl in *. rewrite length_app, Hv. f_equal.
    destruct (getitem n other) as [s|] eqn:Hs.
    + exact (getitem_length n other s Ho Hs).
    + apply length_nans.
  - rewrite Forall_map. apply Forall_forall. intros [n v] Hin.
    apply filter_In in Hin. destruct Hin as [Hin _].
    rewrite Forall_forall in Ho. specialize (Ho _ Hin).
    simpl in *. now rewrite length_app, length_nans, Ho.
Qed.

Lemma frame_ok_iloc_from k d : frame_ok d -> frame_ok (iloc_from k d).
Proof.
  intro Hd. unfold frame_ok, iloc_from, len in *. simpl.
  rewrite Forall_map. eapply Forall_impl; [|exact Hd].
  intros [n v] Hv. simpl in *. now rewrite !length_skipn, Hv.
Qed.

(** X6: [add_rows] keeps the frame rectangular: if every column of the buffer
    and of [rows] is as long as its index, so is every column afterwards,
    whatever the two sets of columns are. *)
Theorem add_rows_keeps_frame_ok (rows : DataFrame) (fc : FrameClient) :
  frame_ok (df fc) -> frame_ok rows -> frame_ok (df (add_rows rows fc)).
Proof.
  intros Hd Hr. destruct (add_rows_merge rows fc) as [k ->].
  rewrite evict_iloc. apply frame_ok_iloc_from. simpl df.
  apply frame_ok_append; [exact Hd | now apply frame_ok_iloc_from].
Qed.

Lemma add_rows_keeps_frame_ok_witness :
  frame_ok (df (add_rows (mkDataFrame [5; 6] [("close", [1; 2]%float)])
                         demo_buffer)).
Proof.
  apply add_rows_keeps_frame_ok; repeat constructor.
Defined.

(** ** Indicator columns of appended bars *)

Lemma lookup_map_app c cols (f : string * Series -> Series) more s :
  lookup c cols = Some s ->
  lookup c (map (fun x => (fst x, f x)) cols ++ more) = Some (f (c, s)).
Proof.
  induction cols as [|[n v] rest IH]; simpl; [discriminate|].
  destruct (String.eqb c n) eqn:E; intro Hs.
  - apply String.eqb_eq in E. subst n. now injection Hs as ->.
  - exact (IH Hs).
Qed.

Lemma getitem_append_left c d other old :
  getitem c d = Some old ->
  getitem c (append d other)
  = Some (old ++ match getitem c other with
                 | Some s => s
                 | None => nans (len other)
                 end).
Proof.
  intro Hold. unfold getitem, append. simpl.
  exact (lookup_map_app c (columns d)
           (fun x => snd x ++ match lookup (fst x) (columns other) with
                              | Some s => s
                              | None => nans (len other)
                              end) _ old Hold).
Qed.

(** X7: a column the buffer has and [rows] lacks (an indicator column) is
    padded with NaN for every appended bar: the new bars carry no indicator
    value until [update] runs. *)
Theorem add_rows_pads_indicator_columns
  (rows : DataFrame) (fc : FrameClient) (c : string) (old : Series) :
  getitem c (df fc) = Some old ->
  getitem c rows = None ->
  exists k : nat,
    let appended := (len rows - k)%nat in
    let drop := Z.to_nat (Z.of_nat (len (df fc) + appended) - max_size fc) in
    getitem c (df (add_rows rows fc)) = Some (skipn drop (old ++ nans appended))
    /\ index (df (add_rows rows fc))
       = skipn drop (index (df fc) ++ skipn k (index rows)).
Proof.
  intros Hold Hnone. destruct (add_rows_merge rows fc) as [k ->].
  exists k. cbv zeta. rewrite evict_iloc. simpl df. simpl max_size.
  assert (Hlen : len (append (df fc) (iloc_from k rows))
                 = (len (df fc) + (len rows - k))%nat).
  { unfold len. rewrite index_append, length_app, index_iloc_from,
      length_skipn. reflexivity. }
  rewrite Hlen, getitem_iloc_from, index_iloc_from, index_append,
    index_iloc_from.
  rewrite (getitem_append_left c (df fc) (iloc_from k rows) old Hold).
  rewrite getitem_iloc_from, Hnone, len_iloc_from. simpl. auto.
Qed.

Lemma add_rows_pads_indicator_columns_witness :
  exists (old : Series) (k : nat),
    getitem "macd" (df (state_of (macd 2 3 2 "macd" demo_buffer))) = Some old
    /\ getitem "macd"
         (df (add_rows (bars [5; 6] [9; 9]%float)
                (state_of (macd 2 3 2 "macd" demo_buffer))))
       = Some (skipn (Z.to_nat (Z.of_nat (4 + (2 - k)) - 1000))
                     (old ++ nans (2 - k))).
Proof.
  destruct (getitem "macd" (df (state_of (macd 2 3 2 "macd" demo_buffer))))
    as [old|] eqn:Hold; [|vm_compute in Hold; discriminate Hold].
  destruct (add_rows_pads_indicator_columns (bars [5; 6] [9; 9]%float)
              (state_of (macd 2 3 2 "macd" demo_buffer)) "macd" old Hold
              eq_refl) as (k & Hcol & _).
  exists old, k. split; [reflexivity | exact Hcol].
Defined.

(** ** Rows without overlap, rows with a deep overlap *)

Lemma first_index_none p l :
  (forall x, In x l -> p x = false) -> first_index p l = List.length l.
Proof.
  induction l as [|t rest IH]; intro H; [reflexivity|].
  simpl. rewrite (H t) by now left. f_equal. apply IH.
  intros x Hx. apply H. now right.
Qed.

(** X4: rows that are all newer than the buffer's last bar are appended whole,
    and an ascending buffer stays strictly ascending. *)
Theorem add_rows_strictly_newer (rows : DataFrame) (fc : FrameClient) :
  empty (df fc) = false ->
  ascending (index (df fc)) ->
  ascending (index rows) ->
  (forall t, In t (index rows) -> List.last (index (df fc)) 0 < t) ->
  index (df (add_rows rows fc))
  = skipn (Z.to_nat (Z.of_nat (len (df fc) + len rows) - max_size fc))
          (index (df fc) ++ index rows)
  /\ ascending (index (df (add_rows rows fc)))
  /\ NoDup (index (df (add_rows rows fc))).
Proof.
  intros Hne Hb Hr Hnew.
  assert (Hix : index (df (add_rows rows fc))
                = skipn (Z.to_nat (Z.of_nat (len (df fc) + len rows)
                                   - max_size fc))
                        (index (df fc) ++ index rows)).
  { unfold add_rows. rewrite Hne. cbn [negb].
    rewrite scan_first_index. cbn [Nat.add].
    rewrite first_index_none.
    2:{ intros x Hx. apply Z.eqb_neq. specialize (Hnew x Hx). lia. }
    fold (len rows). rewrite Nat.eqb_refl. cbn [orb].
    rewrite evict_iloc, index_iloc_from. cbn [df set_df max_size].
    rewrite index_append. unfold len at 1. rewrite index_append, length_app.
    reflexivity. }
  assert (Hasc : ascending (index (df (add_rows rows fc)))).
  { rewrite Hix. apply ascending_skipn. apply ascending_app.
    - exact Hb.
    - exact Hr.
    - exact Hnew.
    - unfold empty in Hne. destruct (index (df fc)); discriminate. }
  split; [exact Hix|]. split; [exact Hasc | exact (ascending_NoDup _ Hasc)].
Qed.

Lemma add_rows_strictly_newer_witness :
  index (df (add_rows (bars [7; 8] [1; 2]%float) demo_buffer))
  = [1; 2; 3; 4; 7; 8].
Proof.
  refine (proj1 (add_rows_strictly_newer (bars [7; 8] [1; 2]%float)
                   demo_buffer eq_refl _ _ _)).
  - change (ascending [1; 2; 3; 4]). simpl. lia.
  - simpl. lia.
  - intros t Ht. change (List.last (index (df demo_buffer)) 0) with 4.
    simpl in Ht. lia.
Defined.

(** X5: when the buffer's last timestamp is found in ascending [rows] at
    an index [i >= 1], exactly the rows after index [i] are appended: the
    redelivered bars are skipped and an ascending buffer stays strictly
    ascending, without duplicates. *)
Theorem add_rows_dedups_deep_overlap
  (rows : DataFrame) (fc : FrameClient) (i : nat) :
  empty (df fc) = false ->
  ascending (index (df fc)) ->
  ascending (index rows) ->
  (0 < i < len rows)%nat ->
  nth i (index rows) 0 = List.last (index (df fc)) 0 ->
  index (df (add_rows rows fc))
  = skipn (Z.to_nat (Z.of_nat (len (df fc) + (len rows - S i)) - max_size fc))
          (index (df fc) ++ skipn (S i) (index rows))
  /\ ascending (index (df (add_rows rows fc)))
  /\ NoDup (index (df (add_rows rows fc))).
Proof.
  intros Hne Hb Hr Hi Hmatch. split.
  - unfold add_rows. rewrite Hne. cbn [negb].
    rewrite scan_first_index. cbn [Nat.add].
    rewrite (first_index_unique_match _ _ i Hr (proj2 Hi) Hmatch).
    replace ((i =? len rows)%nat || (i =? 0)%nat) with false.
    2:{ symmetry. apply orb_false_iff. split; apply Nat.eqb_neq; lia. }
    rewrite evict_iloc, index_iloc_from. cbn [df set_df max_size].
    rewrite index_append, index_iloc_from. unfold len at 1.
    rewrite index_append, length_app, index_iloc_from, length_skipn.
    reflexivity.
  - exact (add_rows_ascending_deep_overlap rows fc Hne Hb Hr i Hi Hmatch).
Qed.

Lemma add_rows_dedups_deep_overlap_witness :
  index (df (add_rows (bars [3; 4; 5; 6] [4; 8; 9; 7]%float) demo_buffer))
  = [1; 2; 3; 4; 5; 6].
Proof.
  refine (proj1 (add_rows_dedups_deep_overlap
                   (bars [3; 4; 5; 6] [4; 8; 9; 7]%float) demo_buffer 1%nat
                   eq_refl _ _ _ eq_refl)).
  - change (ascending [1; 2; 3; 4]). simpl. lia.
  - simpl. lia.
  - change (0 < 1 < 4)%nat. lia.
Defined.

(** * Further properties of the indicators *)

(** ** A registration that raises *)

(** X8: on a non-empty frame that lacks the first price column a method reads,
    the call raises [KeyError] for that column; the spec has been recorded
    all the same and the frame is as it was. *)
Theorem register_missing_input (a : Kwargs) (fc : FrameClient) :
  empty (df fc) = false ->
  getitem (first_input a) (df fc) = None ->
  register a fc
  = Raise (KeyError (first_input a))
          (registered (name_of a) (spec_of a) (df fc) fc).
Proof.
  intros Hne Hmiss.
  destruct a as [fast slow macd_period name|period name|period std name];
    simpl in Hmiss; unfold register, call, spec_of; cbn [func args method];
    [unfold macd|unfold atr|unfold bbands];
    unfold bind, _save_indicator, df_getitem; rewrite Hne; cbn [negb df];
    rewrite Hmiss; reflexivity.
Qed.

Lemma register_missing_input_witness :
  register (BbandsArgs 20 2 "bbands")
    (add_rows (mkDataFrame [1; 2] [("open", [1; 2]%float)]) (init 1000))
  = Raise (KeyError "close")
      (registered "bbands" (spec_of (BbandsArgs 20 2 "bbands"))
         (mkDataFrame [1; 2] [("open", [1; 2]%float)])
         (add_rows (mkDataFrame [1; 2] [("open", [1; 2]%float)]) (init 1000))).
Proof.
  exact (register_missing_input (BbandsArgs 20 2 "bbands")
           (add_rows (mkDataFrame [1; 2] [("open", [1; 2]%float)]) (init 1000))
           eq_refl eq_refl).
Defined.

Lemma ewm_mean_valid span minp s :
  1 <= span -> exists r, ewm_mean span minp s = inr r.
Proof.
  intro H. unfold ewm_mean.
  destruct (span <? 1) eqn:E; [apply Z.ltb_lt in E; lia|].
  destruct s; eexists; reflexivity.
Qed.

Lemma ewm_mean_invalid span minp s :
  span < 1 -> ewm_mean span minp s = inl ValueError.
Proof.
  intro H. unfold ewm_mean.
  destruct (span <? 1) eqn:E; [reflexivity|apply Z.ltb_ge in E; lia].
Qed.

(** X9: a method that raises midway leaves its scratch columns behind: [macd]
    with a valid [fast] and a [slow] below 1 raises [ValueError] with
    ['macd_fast'] in the frame, and [atr] with a negative [period] raises
    [ValueError] with its four scratch columns in the frame. *)
Theorem failed_indicator_leaves_scratch (fc : FrameClient) :
  empty (df fc) = false ->
  (forall fast slow macd_period name close,
      getitem "close" (df fc) = Some close ->
      1 <= fast -> slow < 1 ->
      exists f st,
        ewm_mean fast fast close = inr f
        /\ macd fast slow macd_period name fc = Raise ValueError st
        /\ df st = setitem "macd_fast" f (df fc)
        /\ has_column "macd_fast" (df st) = true)
  /\ (forall period name high low close,
      getitem "high" (df fc) = Some high ->
      getitem "low" (df fc) = Some low ->
      getitem "close" (df fc) = Some close ->
      period < 0 ->
      exists st,
        atr period name fc = Raise ValueError st
        /\ forallb (fun c => has_column c (df st)) atr_scratch = true
        /\ has_column "atr" (df st) = has_column "atr" (df fc)).
Proof.
  intro Hne. split.
  - intros fast slow macd_period name close Hc Hfast Hslow.
    destruct (ewm_mean_valid fast fast close Hfast) as [f Hf].
    pose proof (ewm_mean_invalid slow slow close Hslow) as Hs.
    exists f. eexists. split; [exact Hf|].
    unfold macd, _save_indicator. frame_step. rewrite Hne. cbn [negb].
    repeat first [ rewrite Hc | rewrite Hf | rewrite Hs | progress frame_step ].
    split; [reflexivity|]. split; [reflexivity|].
    cbn [df]. rewrite has_column_setitem. reflexivity.
  - intros period name high low close Hh Hl Hc Hneg.
    assert (Hw : rolling period = inl ValueError).
    { unfold rolling. destruct (period <? 0) eqn:E;
        [reflexivity | apply Z.ltb_ge in E; lia]. }
    eexists.
    unfold atr, _save_indicator. frame_step. rewrite Hne. cbn [negb].
    repeat first
      [ rewrite Hh | rewrite Hl | rewrite Hc | rewrite Hw | progress frame_step ].
    split; [reflexivity|]. cbn [df].
    split.
    + cbn [forallb atr_scratch]. rewrite !has_column_setitem. reflexivity.
    + rewrite !has_column_setitem. reflexivity.
Qed.

Lemma failed_indicator_leaves_scratch_witness :
  exists st,
    atr (-1) "atr" demo_buffer = Raise ValueError st
    /\ forallb (fun c => has_column c (df st)) atr_scratch = true.
Proof.
  destruct (proj2 (failed_indicator_leaves_scratch demo_buffer eq_refl)
              (-1) "atr" [1; 2; 4; 8]%float [1; 2; 4; 8]%float
              [1; 2; 4; 8]%float eq_refl eq_refl eq_refl ltac:(lia))
    as (st & Hrun & Hscratch & _).
  exists st. split; [exact Hrun | exact Hscratch].
Defined.

(** ** Looking up what was registered *)

Lemma dict_get_set_eq {V : Type} k (v : V) reg :
  dict_get k (dict_set k v reg) = Some v.
Proof.
  induction reg as [|[k' v'] rest IH]; simpl.
  - now rewrite String.eqb_refl.
  - destruct (String.eqb k k') eqn:E; simpl; rewrite E; [reflexivity|exact IH].
Qed.

Lemma dict_get_set_neq {V : Type} k k' (v : V) reg :
  k <> k' -> dict_get k (dict_set k' v reg) = dict_get k reg.
Proof.
  intro Hne. apply String.eqb_neq in Hne.
  induction reg as [|[n old] rest IH]; simpl.
  - now rewrite Hne.
  - destruct (String.eqb k' n) eqn:E; simpl.
    + apply String.eqb_eq in E. subst n. now rewrite Hne.
    + now rewrite IH.
Qed.

(** X10: after a registration call, returned or raised, the registry holds the
    call's spec under its name, whatever was stored there before, and every
    other name holds what it held. *)
Theorem register_then_lookup (a : Kwargs) (fc : FrameClient) :
  dict_get (name_of a) (indicators (state_of (register a fc)))
  = Some (spec_of a)
  /\ forall k, k <> name_of a ->
       dict_get k (indicators (state_of (register a fc)))
       = dict_get k (indicators fc).
Proof.
  rewrite (proj1 (register_registry a fc)). split.
  - apply dict_get_set_eq.
  - intros k Hk. now apply dict_get_set_neq.
Qed.

Lemma register_then_lookup_witness :
  dict_get "macd"
    (indicators (state_of (register (MacdArgs 5 8 3 "macd")
                             (state_of (register (MacdArgs 12 26 9 "macd")
                                          (state_of (register (AtrArgs 20 "atr")
                                                       (init 1000))))))))
  = Some (spec_of (MacdArgs 5 8 3 "macd"))
  /\ dict_get "atr"
       (indicators (state_of (register (MacdArgs 5 8 3 "macd")
                                (state_of (register (MacdArgs 12 26 9 "macd")
                                             (state_of (register (AtrArgs 20 "atr")
                                                          (init 1000))))))))
     = Some (spec_of (AtrArgs 20 "atr")).
Proof.
  destruct (register_then_lookup (MacdArgs 5 8 3 "macd")
              (state_of (register (MacdArgs 12 26 9 "macd")
                           (state_of (register (AtrArgs 20 "atr") (init 1000))))))
    as [Hnew Hother].
  split; [exact Hnew|].
  rewrite (Hother "atr"); [reflexivity | discriminate].
Defined.

(** ** What [update] and the registration calls never touch *)

Lemma untouched_refl fc : untouched fc fc.
Proof. split; auto. Qed.

Lemma untouched_trans fc1 fc2 fc3 :
  untouched fc1 fc2 -> untouched fc2 fc3 -> untouched fc1 fc3.
Proof.
  intros [Hi1 Hc1] [Hi2 Hc2]. split; [congruence|].
  intros c Hc. rewrite (Hc2 c Hc). exact (Hc1 c Hc).
Qed.

Lemma tio_ret {A : Type} (a : A) : touches_indicators_only (ret a).
Proof. intro fc. apply untouched_refl. Qed.

Lemma tio_raise {A : Type} e : touches_indicators_only (@raise FrameClient A e).
Proof. intro fc. apply untouched_refl. Qed.

Lemma tio_bind {A B : Type} (m : M FrameClient A) (k : A -> M FrameClient B) :
  touches_indicators_only m -> (forall a, touches_indicators_only (k a)) ->
  touches_indicators_only (bind m k).
Proof.
  intros Hm Hk fc. unfold bind. specialize (Hm fc).
  destruct (m fc) as [a st|e st]; simpl in Hm; [|exact Hm].
  exact (untouched_trans _ _ _ Hm (Hk a st)).
Qed.

Lemma tio_getitem c : touches_indicators_only (df_getitem c).
Proof.
  intro fc. unfold df_getitem. destruct (getitem c (df fc));
    apply untouched_refl.
Qed.

Lemma tio_lift {A : Type} (r : Exn + A) : touches_indicators_only (lift r).
Proof. intro fc. unfold lift. destruct r; apply untouched_refl. Qed.

Lemma tio_setitem c s :
  mem c indicator_columns = true -> touches_indicators_only (df_setitem c s).
Proof.
  intros Hc fc. unfold df_setitem. simpl. split; [reflexivity|].
  intros c' Hc'. apply getitem_setitem_neq. intros ->. congruence.
Qed.

Lemma mem_sub c labels :
  mem c indicator_columns = false ->
  forallb (fun l => mem l indicator_columns) labels = true ->
  mem c labels = false.
Proof.
  intros Hc Hall. destruct (mem c labels) eqn:E; [|reflexivity].
  apply mem_In in E. rewrite forallb_forall in Hall.
  specialize (Hall c E). congruence.
Qed.

Lemma tio_drop labels :
  forallb (fun l => mem l indicator_columns) labels = true ->
  touches_indicators_only (df_drop labels).
Proof.
  intros Hall fc. unfold df_drop, drop.
  destruct (filter _ labels); simpl; [|apply untouched_refl].
  split; [reflexivity|]. intros c Hc.
  apply lookup_filter_kept. now apply mem_sub.
Qed.

Lemma tio_save name f a : touches_indicators_only (_save_indicator name f a).
Proof. intro fc. split; [reflexivity | intros; reflexivity]. Qed.

Ltac prove_tio :=
  repeat first
    [ apply tio_bind; [|intro]
    | apply tio_save
    | apply tio_getitem
    | apply tio_lift
    | apply tio_ret
    | apply tio_raise
    | apply tio_setitem; reflexivity
    | apply tio_drop; reflexivity
    | match goal with |- touches_indicators_only (if ?b then _ else _) =>
        destruct b end ].

Lemma tio_call ind : touches_indicators_only (call ind).
Proof.
  destruct ind as [[fast slow macd_period name|period name|period std name]
                     [| |]];
    unfold call; cbn [func args]; try apply tio_raise;
    [unfold macd|unfold atr|unfold bbands]; prove_tio.
Qed.

Lemma tio_update_loop fuel pos size :
  touches_indicators_only (update_loop fuel pos size).
Proof.
  revert pos. induction fuel as [|fuel IH]; intro pos; [apply tio_ret|].
  intro fc. simpl.
  destruct (negb _); [apply untouched_refl|].
  destruct (nth_error (indicators fc) pos) as [[k ind]|];
    [|apply untouched_refl].
  exact (tio_bind _ _ (tio_call ind) (fun _ => IH (S pos)) fc).
Qed.

(** X11: neither a registration call nor [update], returned or raised, adds,
    drops or reorders bars, and neither changes any column other than the
    indicator and scratch columns: the price data is never modified. *)
Theorem indicators_leave_prices_alone (fc : FrameClient) :
  (forall a : Kwargs,
      index (df (state_of (register a fc))) = index (df fc)
      /\ forall c, mem c indicator_columns = false ->
           getitem c (df (state_of (register a fc))) = getitem c (df fc))
  /\ index (df (state_of (update fc))) = index (df fc)
  /\ forall c, mem c indicator_columns = false ->
       getitem c (df (state_of (update fc))) = getitem c (df fc).
Proof.
  split.
  - intro a. exact (tio_call (spec_of a) fc).
  - exact (tio_update_loop _ _ _ fc).
Qed.

Lemma indicators_leave_prices_alone_witness :
  getitem "close"
    (df (state_of (update (state_of (register (AtrArgs (-1) "atr")
                                       demo_buffer)))))
  = Some [1; 2; 4; 8]%float.
Proof.
  destruct (indicators_leave_prices_alone
              (state_of (register (AtrArgs (-1) "atr") demo_buffer)))
    as (_ & _ & Hcols).
  rewrite (Hcols "close" eq_refl).
  destruct (indicators_leave_prices_alone demo_buffer) as (Hreg & _).
  rewrite (proj2 (Hreg (AtrArgs (-1) "atr")) "close" eq_refl).
  reflexivity.
Defined.

(** ** The registry over any run of calls *)

Lemma call_all_keeps_registry reg (entries : list (string * Indicator)) :
  registry_ok reg -> incl entries reg ->
  forall fc, indicators fc = reg ->
    indicators (state_of (call_all (map snd entries) fc)) = reg
    /\ max_size (state_of (call_all (map snd entries) fc)) = max_size fc.
Proof.
  intros Hok. induction entries as [|[k ind] rest IH]; intros Hincl fc Hreg.
  - simpl. auto.
  - simpl. unfold bind.
    assert (Hin : In (k, ind) (indicators fc))
      by (rewrite Hreg; apply Hincl; now left).
    assert (Hok' : registry_ok (indicators fc)) by now rewrite Hreg.
    pose proof (call_keeps_registry fc k ind Hok' Hin) as Hkeep.
    assert (Hentry : entry_ok (k, ind))
      by (destruct Hok' as [_ Hall]; rewrite Forall_forall in Hall; auto).
    destruct (call_entry k ind Hentry) as (Hcall & _ & _).
    pose proof (proj2 (register_registry (args ind) fc)) as Hmax.
    rewrite <- Hcall in Hmax.
    destruct (call ind fc) as [[] st|e st]; simpl in Hkeep, Hmax.
    + destruct (IH (fun x Hx => Hincl x (or_intror Hx)) st)
        as [Hi Hm]; [congruence|].
      split; [exact Hi | congruence].
    + simpl. split; congruence.
Qed.

Lemma update_keeps_registry fc :
  registry_ok (indicators fc) ->
  indicators (state_of (update fc)) = indicators fc
  /\ max_size (state_of (update fc)) = max_size fc.
Proof.
  intro Hok. rewrite (update_call_all fc Hok).
  exact (call_all_keeps_registry (indicators fc) (indicators fc) Hok
           (incl_refl _) fc eq_refl).
Qed.

Lemma indicators_evict fc : indicators (evict fc) = indicators fc.
Proof. unfold evict. destruct (0 <? _); reflexivity. Qed.

Lemma indicators_add_rows rows fc :
  indicators (add_rows rows fc) = indicators fc.
Proof.
  unfold add_rows. rewrite indicators_evict. destruct (_ || _); reflexivity.
Qed.

Lemma perform_invariant fc act :
  registry_ok (indicators fc) ->
  registry_ok (indicators (perform fc act))
  /\ max_size (perform fc act) = max_size fc.
Proof.
  intro Hok. destruct act as [a|rows|]; simpl.
  - split; [now apply registry_ok_register|].
    exact (proj2 (register_registry a fc)).
  - rewrite indicators_add_rows, max_size_add_rows. auto.
  - destruct (update_keeps_registry fc Hok) as [Hi Hm].
    rewrite Hi. auto.
Qed.

Lemma perform_all_invariant acts fc :
  registry_ok (indicators fc) ->
  registry_ok (indicators (perform_all acts fc))
  /\ max_size (perform_all acts fc) = max_size fc.
Proof.
  revert fc. induction acts as [|act rest IH]; intros fc Hok; [auto|].
  simpl. destruct (perform_invariant fc act Hok) as [Hok' Hmax].
  destruct (IH _ Hok') as [H1 H2]. split; [exact H1 | congruence].
Qed.

(** *** Only column errors are raised *)

Lemma rb_ret {A : Type} (a : A) : raises_benign (ret a).
Proof. intros fc e st H. discriminate H. Qed.

Lemma rb_bind {A B : Type} (m : M FrameClient A) (k : A -> M FrameClient B) :
  raises_benign m -> (forall a, raises_benign (k a)) ->
  raises_benign (bind m k).
Proof.
  intros Hm Hk fc e st H. unfold bind in H.
  destruct (m fc) as [a st'|e' st'] eqn:E.
  - exact (Hk a st' e st H).
  - injection H as <- <-. exact (Hm fc e' st' E).
Qed.

Lemma rb_getitem c : raises_benign (df_getitem c).
Proof.
  intros fc e st H. unfold df_getitem in H.
  destruct (getitem c (df fc)); [discriminate|]. injection H as <- _. exact I.
Qed.

Lemma rb_setitem c s : raises_benign (df_setitem c s).
Proof. intros fc e st H. discriminate H. Qed.

Lemma rb_drop labels : raises_benign (df_drop labels).
Proof.
  intros fc e st H. unfold df_drop, drop in H.
  destruct (filter _ labels); [discriminate|]. injection H as <- _. exact I.
Qed.

Lemma rb_ewm span minp s : raises_benign (lift (ewm_mean span minp s)).
Proof.
  intros fc e st H. unfold lift, ewm_mean in H.
  destruct (span <? 1); [injection H as <- _; exact I|].
  destruct s; discriminate.
Qed.

Lemma rb_rolling w : raises_benign (lift (rolling w)).
Proof.
  intros fc e st H. unfold lift, rolling in H.
  destruct (w <? 0); [injection H as <- _; exact I | discriminate].
Qed.

Lemma rb_save name f a : raises_benign (_save_indicator name f a).
Proof. intros fc e st H. discriminate H. Qed.

Ltac prove_rb :=
  repeat first
    [ apply rb_bind; [|intro]
    | apply rb_save
    | apply rb_getitem
    | apply rb_setitem
    | apply rb_drop
    | apply rb_ewm
    | apply rb_rolling
    | apply rb_ret
    | match goal with |- raises_benign (if ?b then _ else _) =>
        destruct b end ].

Lemma rb_register a : raises_benign (register a).
Proof.
  destruct a as [fast slow macd_period name|period name|period std name];
    unfold register, call, spec_of; cbn [func args method];
    [unfold macd|unfold atr|unfold bbands]; prove_rb.
Qed.

Lemma rb_call_all (entries : list (string * Indicator)) :
  Forall entry_ok entries -> raises_benign (call_all (map snd entries)).
Proof.
  induction 1 as [|[k ind] rest Hentry _ IH]; simpl; [apply rb_ret|].
  apply rb_bind; [|intros _; exact IH].
  destruct (call_entry k ind Hentry) as (-> & _ & _). apply rb_register.
Qed.

(** X13: whatever run of registration calls, [add_rows] calls and [update]
    calls a fresh client has seen: its registry is one that registration
    calls build, its capacity is the one it was created with, [update]
    leaves the registry as it is, and [update] raises nothing but a
    [KeyError] or a [ValueError] from a column computation: the registry is
    never resized under the loop and no stored call is ever ill-formed. *)
Theorem registry_invariant (acts : list Action) (capacity : Z) :
  let fc := perform_all acts (init capacity) in
  registry_ok (indicators fc)
  /\ max_size fc = capacity
  /\ indicators (state_of (update fc)) = indicators fc
  /\ forall e st, update fc = Raise e st -> benign e.
Proof.
  cbv zeta.
  destruct (perform_all_invariant acts (init capacity)
              (registry_ok_init capacity)) as [Hok Hmax].
  split; [exact Hok|]. split; [exact Hmax|].
  split; [exact (proj1 (update_keeps_registry _ Hok))|].
  intros e st H. rewrite (update_call_all _ Hok) in H.
  exact (rb_call_all _ (proj2 Hok) _ e st H).
Qed.

Lemma registry_invariant_witness :
  update (perform_all
            [DoRegister (MacdArgs 12 26 9 "macd");
             DoAddRows (mkDataFrame [1; 2] [("open", [1; 2]%float)]);
             DoUpdate]
            (init 1000))
  = Raise (KeyError "close")
      (perform_all
         [DoRegister (MacdArgs 12 26 9 "macd");
          DoAddRows (mkDataFrame [1; 2] [("open", [1; 2]%float)]);
          DoUpdate]
         (init 1000))
  /\ benign (KeyError "close").
Proof.
  assert (Hrun : update (perform_all
            [DoRegister (MacdArgs 12 26 9 "macd");
             DoAddRows (mkDataFrame [1; 2] [("open", [1; 2]%float)]);
             DoUpdate]
            (init 1000))
          = Raise (KeyError "close")
              (perform_all
                 [DoRegister (MacdArgs 12 26 9 "macd");
                  DoAddRows (mkDataFrame [1; 2] [("open", [1; 2]%float)]);
                  DoUpdate]
                 (init 1000))) by reflexivity.
  split; [exact Hrun|].
  exact (proj2 (proj2 (proj2
           (registry_invariant
              [DoRegister (MacdArgs 12 26 9 "macd");
               DoAddRows (mkDataFrame [1; 2] [("open", [1; 2]%float)]);
               DoUpdate] 1000))) _ _ Hrun).
Defined.

(** ** Recomputing twice

    A pass drops scratch columns and assigns one output column.  A sequence
    of passes is all its drops followed by all its assignments, and
    assigning the same columns again changes nothing. *)

Lemma without_comm X Y d : without X (without Y d) = without Y (without X d).
Proof.
  unfold without. simpl. f_equal.
  induction (columns d) as [|[n v] rest IH]; simpl; [reflexivity|].
  destruct (mem n Y) eqn:HY, (mem n X) eqn:HX; simpl;
    rewrite ?HX, ?HY; simpl; now rewrite ?IH.
Qed.

Lemma drop_all_without ps X d :
  drop_all ps (without X d) = without X (drop_all ps d).
Proof.
  revert d. induction ps as [|p ps IH]; intro d; [reflexivity|].
  simpl. rewrite without_comm. apply IH.
Qed.

Lemma drop_all_setitem ps o s d :
  (forall q, In q ps -> mem o (pass_scratch q) = false) ->
  drop_all ps (setitem o s d) = setitem o s (drop_all ps d).
Proof.
  revert d. induction ps as [|p ps IH]; intros d H; [reflexivity|].
  simpl. rewrite without_setitem_kept by (apply H; now left).
  apply IH. intros q Hq. apply H. now right.
Qed.

Lemma drop_all_idem ps d : drop_all ps (drop_all ps d) = drop_all ps d.
Proof.
  revert d. induction ps as [|p ps IH]; intro d; [reflexivity|].
  simpl. rewrite (drop_all_without ps (pass_scratch p) d), without_without.
  rewrite drop_all_without. now rewrite IH.
Qed.

Lemma drop_all_write_all ps qs d :
  (forall p q, In p qs -> In q ps -> mem (pass_output p) (pass_scratch q) = false) ->
  drop_all ps (write_all qs d) = write_all qs (drop_all ps d).
Proof.
  revert d. induction qs as [|p qs IH]; intros d H; [reflexivity|].
  simpl. rewrite IH by (intros; apply H; [now right|assumption]).
  f_equal. apply drop_all_setitem. intros q Hq. apply H; [now left|exact Hq].
Qed.

Lemma run_passes_split ps d :
  passes_ok ps -> run_passes ps d = write_all ps (drop_all ps d).
Proof.
  revert d. induction ps as [|p ps IH]; intros d Hok; [reflexivity|].
  assert (Hok' : passes_ok ps)
    by (intros x y Hx Hy; apply Hok; now right).
  simpl. unfold run_passes in IH. rewrite IH by exact Hok'. f_equal.
  unfold run_pass. apply drop_all_setitem.
  intros q Hq. apply Hok; [now left | now right].
Qed.

Lemma assign_overwrite o s s' cols :
  assign o s (assign o s' cols) = assign o s cols.
Proof.
  induction cols as [|[n v] rest IH]; simpl.
  - now rewrite String.eqb_refl.
  - destruct (String.eqb o n) eqn:E; simpl; rewrite E; [reflexivity|].
    now rewrite IH.
Qed.

Lemma assign_comm o s o' s' cols :
  o <> o' -> mem o' (map fst cols) = true ->
  assign o s (assign o' s' cols) = assign o' s' (assign o s cols).
Proof.
  intros Hne Hin. pose proof Hne as Hne'.
  apply String.eqb_neq in Hne.
  assert (Hne2 : String.eqb o' o = false) by (apply String.eqb_neq; congruence).
  induction cols as [|[n v] rest IH]; [discriminate Hin|].
  simpl in Hin. simpl.
  destruct (String.eqb o' n) eqn:E'.
  - apply String.eqb_eq in E'. subst n. rewrite Hne. simpl.
    rewrite Hne, String.eqb_refl. reflexivity.
  - simpl in Hin. destruct (String.eqb o n) eqn:E; simpl; rewrite ?E, ?E'.
    + reflexivity.
    + unfold mem in IH. rewrite (IH Hin). reflexivity.
Qed.

Lemma setitem_overwrite o s s' d :
  setitem o s (setitem o s' d) = setitem o s d.
Proof. unfold setitem. simpl. now rewrite assign_overwrite. Qed.

Lemma setitem_comm o s o' s' d :
  o <> o' -> has_column o' d = true ->
  setitem o s (setitem o' s' d) = setitem o' s' (setitem o s d).
Proof.
  intros Hne Hin. unfold setitem. simpl. f_equal.
  now apply assign_comm.
Qed.

Lemma outputs_present_setitem ps o s d :
  outputs_present ps d -> outputs_present ps (setitem o s d).
Proof.
  intros H p Hp. rewrite has_column_setitem, (H p Hp). apply orb_true_r.
Qed.

Lemma has_column_write_all ps c d :
  has_column c d = true -> has_column c (write_all ps d) = true.
Proof.
  revert d. induction ps as [|p ps IH]; intros d H; [exact H|].
  simpl. apply IH. rewrite has_column_setitem, H. apply orb_true_r.
Qed.

Lemma outputs_present_write_all ps d : outputs_present ps (write_all ps d).
Proof.
  revert d. induction ps as [|p ps IH]; intros d q Hq; [destruct Hq|].
  simpl. destruct Hq as [<-|Hq].
  - apply has_column_write_all. rewrite has_column_setitem.
    now rewrite String.eqb_refl.
  - now apply IH.
Qed.

(** Writing [o] first and then running the assignments of [ps] on a frame
    that already has every output of [ps]: the first write survives only
    when no pass of [ps] writes [o]. *)
Lemma write_all_after_setitem ps o s d :
  outputs_present ps d ->
  write_all ps (setitem o s d)
  = if existsb (fun p => String.eqb (pass_output p) o) ps
    then write_all ps d
    else setitem o s (write_all ps d).
Proof.
  revert d. induction ps as [|p ps IH]; intros d Hpres; [reflexivity|].
  assert (Hpres' : forall e, outputs_present (p :: ps) e -> outputs_present ps e)
    by (intros e H q Hq; apply H; now right).
  simpl. destruct (String.eqb (pass_output p) o) eqn:E.
  - apply String.eqb_eq in E. subst o. simpl. now rewrite setitem_overwrite.
  - simpl. apply String.eqb_neq in E.
    rewrite <- (setitem_comm o s (pass_output p) (pass_series p) d);
      [|congruence | apply Hpres; now left].
    apply IH. apply outputs_present_setitem. now apply Hpres'.
Qed.

Lemma write_all_snoc ps p d :
  write_all (ps ++ [p]) d
  = setitem (pass_output p) (pass_series p) (write_all ps d).
Proof. unfold write_all. now rewrite fold_left_app. Qed.

Lemma write_all_idem ps d : write_all ps (write_all ps d) = write_all ps d.
Proof.
  revert d. induction ps as [|p ps IH] using rev_ind; intro d; [reflexivity|].
  rewrite !write_all_snoc.
  rewrite (write_all_after_setitem ps (pass_output p) (pass_series p)
             (write_all ps d)) by apply outputs_present_write_all.
  destruct (existsb _ ps).
  - now rewrite IH.
  - now rewrite IH, setitem_overwrite.
Qed.

Lemma run_passes_idem ps d :
  passes_ok ps -> run_passes ps (run_passes ps d) = run_passes ps d.
Proof.
  intro Hok. rewrite !run_passes_split by exact Hok.
  rewrite drop_all_write_all by (intros p q Hp Hq; now apply Hok).
  now rewrite drop_all_idem, write_all_idem.
Qed.

Ltac run_known :=
  repeat first
    [ match goal with H : getitem _ _ = _ |- _ => rewrite H end
    | match goal with H : ewm_mean _ _ _ = _ |- _ => rewrite H end
    | match goal with H : rolling _ = _ |- _ => rewrite H end
    | progress frame_step ].

(** On a non-empty frame a call whose series is undefined raises. *)
Lemma register_raises a fc :
  empty (df fc) = false -> series_of a (df fc) = None ->
  exists e st, register a fc = Raise e st.
Proof.
  intros Hne Hs.
  destruct a as [fast slow macd_period name|period name|period std name];
    simpl in Hs; unfold register, call, spec_of; cbn [func args method].
  - unfold macd_series in Hs. unfold macd, _save_indicator. frame_step.
    rewrite Hne. cbn [negb].
    destruct (getitem "close" (df fc)) as [close|] eqn:Hc;
      [|run_known; eexists; eexists; reflexivity].
    destruct (ewm_mean fast fast close) as [e|f] eqn:Hf;
      [run_known; eexists; eexists; reflexivity|].
    destruct (ewm_mean slow slow close) as [e|sl] eqn:Hsl;
      [run_known; eexists; eexists; reflexivity|].
    destruct (ewm_mean macd_period macd_period (s_sub f sl)) as [e|m] eqn:Hm;
      [run_known; eexists; eexists; reflexivity | discriminate Hs].
  - unfold atr_series in Hs. unfold atr, _save_indicator. frame_step.
    rewrite Hne. cbn [negb].
    destruct (getitem "high" (df fc)) as [high|] eqn:Hh;
      [|run_known; eexists; eexists; reflexivity].
    destruct (getitem "low" (df fc)) as [low|] eqn:Hl;
      [|run_known; eexists; eexists; reflexivity].
    destruct (getitem "close" (df fc)) as [close|] eqn:Hc;
      [|run_known; eexists; eexists; reflexivity].
    destruct (rolling period) as [e|w] eqn:Hw;
      [run_known; eexists; eexists; reflexivity | discriminate Hs].
  - unfold bbands_series in Hs. unfold bbands, _save_indicator. frame_step.
    rewrite Hne. cbn [negb].
    destruct (getitem "close" (df fc)) as [close|] eqn:Hc;
      [|run_known; eexists; eexists; reflexivity].
    destruct (rolling period) as [e|w] eqn:Hw;
      [run_known; eexists; eexists; reflexivity | discriminate Hs].
Qed.

Lemma series_of_run_pass a b s d :
  series_of a (setitem (output_column b) s (without (scratch b) d))
  = series_of a d.
Proof.
  destruct a as [fast slow macd_period name|period name|period std name],
           b as [fast' slow' macd_period' name'|period' name'|period' std' name'];
    simpl; unfold macd_series, atr_series, bbands_series;
    rewrite !getitem_setitem_neq by (intro; discriminate);
    rewrite !getitem_without by reflexivity; reflexivity.
Qed.

Lemma output_not_scratch a b : mem (output_column a) (scratch b) = false.
Proof. destruct a, b; reflexivity. Qed.

Lemma passes_of_ok base l ps : passes_of base l = Some ps -> passes_ok ps.
Proof.
  revert ps. induction l as [|a rest IH]; intros ps H.
  - injection H as <-. intros p q [].
  - simpl in H. unfold pass_of in H.
    destruct (series_of a base) as [s|]; [|discriminate].
    destruct (passes_of base rest) as [ps'|] eqn:E; [|discriminate].
    injection H as <-.
    assert (Hshape : forall p, In p ((scratch a, output_column a, s) :: ps') ->
              exists c t, p = (scratch c, output_column c, t)).
    { clear IH. revert ps' E. induction rest as [|b rest IHr]; intros ps' E p Hp.
      - injection E as <-. destruct Hp as [<-|[]]. eauto.
      - simpl in E. unfold pass_of in E.
        destruct (series_of b base) as [t|]; [|discriminate].
        destruct (passes_of base rest) as [ps''|] eqn:E'; [|discriminate].
        injection E as <-.
        destruct Hp as [<-|[<-|Hp]]; eauto.
        apply (IHr ps'' eq_refl). now right. }
    intros p q Hp Hq.
    destruct (Hshape p Hp) as (c & t & ->).
    destruct (Hshape q Hq) as (c' & t' & ->).
    apply output_not_scratch.
Qed.

(** A sequence of stored calls on a non-empty frame is the sequence of
    their passes when every series is defined, and raises otherwise. *)
Lemma call_all_passes reg base (entries : list (string * Indicator)) :
  registry_ok reg -> incl entries reg ->
  forall fc,
    indicators fc = reg ->
    empty (df fc) = false ->
    (forall a, series_of a (df fc) = series_of a base) ->
    match passes_of base (map (fun e => args (snd e)) entries) with
    | Some ps =>
        call_all (map snd entries) fc
        = Return tt (mkFrameClient (run_passes ps (df fc)) (max_size fc) reg)
    | None => exists e st, call_all (map snd entries) fc = Raise e st
    end.
Proof.
  intros Hok. induction entries as [|[k ind] rest IH];
    intros Hincl fc Hreg Hne Hbase.
  - simpl. unfold ret. destruct fc. simpl in *. now subst.
  - assert (Hin : In (k, ind) reg) by (apply Hincl; now left).
    assert (Hentry : entry_ok (k, ind))
      by (destruct Hok as [_ Hall]; rewrite Forall_forall in Hall; auto).
    destruct (call_entry k ind Hentry) as (Hcall & Hname & Hspec).
    simpl map. simpl passes_of. simpl call_all. unfold bind, pass_of.
    rewrite Hcall. rewrite <- (Hbase (args ind)).
    destruct (series_of (args ind) (df fc)) as [s|] eqn:Hs.
    + rewrite (register_computes (args ind) fc s Hne Hs), Hname, Hspec.
      unfold registered. rewrite Hreg.
      rewrite (dict_set_present k ind reg (proj1 Hok) Hin).
      specialize (IH (fun x Hx => Hincl x (or_intror Hx))
                    (mkFrameClient
                       (setitem (output_column (args ind)) s
                          (without (scratch (args ind)) (df fc)))
                       (max_size fc) reg) eq_refl).
      cbn [df max_size] in IH.
      specialize (IH (empty_after_write _ _ _ _ Hne)).
      specialize (IH (fun a => eq_trans (series_of_run_pass a (args ind) s (df fc))
                                        (Hbase a))).
      destruct (passes_of base (map (fun e => args (snd e)) rest)) as [ps|].
      * exact IH.
      * exact IH.
    + destruct (register_raises (args ind) fc Hne Hs) as (e & st & Hr).
      rewrite Hr.
      destruct (passes_of base (map (fun e => args (snd e)) rest));
        eexists; eexists; reflexivity.
Qed.

Lemma empty_run_passes ps d : empty d = false -> empty (run_passes ps d) = false.
Proof.
  revert d. induction ps as [|p ps IH]; intros d H; [exact H|].
  simpl. apply IH. now apply empty_after_write.
Qed.

Lemma series_of_run_passes base l ps d a :
  passes_of base l = Some ps ->
  series_of a (run_passes ps d) = series_of a d.
Proof.
  revert ps d. induction l as [|b rest IH]; intros ps d H.
  - injection H as <-. reflexivity.
  - simpl in H. unfold pass_of in H.
    destruct (series_of b base) as [s|]; [|discriminate].
    destruct (passes_of base rest) as [ps'|] eqn:E; [|discriminate].
    injection H as <-. simpl. unfold run_passes in IH.
    rewrite (IH ps' _ eq_refl). apply series_of_run_pass.
Qed.

(** X14: full recomputation is repeatable: when [update] returns on a registry
    built by registration calls, a second [update] right after it returns
    too and changes nothing, also when several entries write the same
    column. *)
Theorem update_twice (fc fc1 : FrameClient) :
  registry_ok (indicators fc) ->
  update fc = Return tt fc1 ->
  update fc1 = Return tt fc1.
Proof.
  intros Hok Hup.
  destruct (empty (df fc)) eqn:He.
  - assert (Hsame : update fc = Return tt fc).
    { rewrite (update_call_all fc Hok).
      apply call_all_on_empty; [exact Hok | apply incl_refl | exact He]. }
    rewrite Hsame in Hup. injection Hup as <-. exact Hsame.
  - rewrite (update_call_all fc Hok) in Hup.
    pose proof (call_all_passes (indicators fc) (df fc) (indicators fc) Hok
                  (incl_refl _) fc eq_refl He (fun a => eq_refl)) as H1.
    destruct (passes_of (df fc) (map (fun e => args (snd e)) (indicators fc)))
      as [ps|] eqn:Hps.
    2:{ destruct H1 as (e & st & Hr). rewrite Hr in Hup. discriminate Hup. }
    rewrite H1 in Hup. injection Hup as <-.
    assert (Hok1 : registry_ok
                     (indicators (mkFrameClient (run_passes ps (df fc))
                                    (max_size fc) (indicators fc))))
      by exact Hok.
    rewrite (update_call_all _ Hok1). cbn [indicators].
    pose proof (call_all_passes (indicators fc) (df fc) (indicators fc) Hok
                  (incl_refl _)
                  (mkFrameClient (run_passes ps (df fc)) (max_size fc)
                     (indicators fc)) eq_refl) as H2.
    cbn [df max_size] in H2.
    specialize (H2 (empty_run_passes ps (df fc) He)).
    specialize (H2 (fun a => series_of_run_passes (df fc) _ ps (df fc) a Hps)).
    rewrite Hps in H2. rewrite H2.
    now rewrite (run_passes_idem ps (df fc) (passes_of_ok _ _ _ Hps)).
Qed.

Lemma update_twice_witness :
  update (state_of (update
            (state_of (register (MacdArgs 3 2 2 "other")
               (state_of (register (MacdArgs 2 3 2 "macd") demo_buffer))))))
  = Return tt
      (state_of (update
         (state_of (register (MacdArgs 3 2 2 "other")
            (state_of (register (MacdArgs 2 3 2 "macd") demo_buffer)))))).
Proof.
  apply (update_twice
           (state_of (register (MacdArgs 3 2 2 "other")
              (state_of (register (MacdArgs 2 3 2 "macd") demo_buffer))))).
  - apply registry_ok_register, registry_ok_register.
    vm_compute. split; constructor.
  - vm_compute. reflexivity.
Defined.

(** * Further properties of the robot *)

(** ** A subscription that fails midway *)

Lemma each_symbol_fails request (done : list string) :
  forall (idx : nat) (res : list Value) (w : World) (vs : list Value)
         (sym : string) (rest : list string) (e : Exn),
    answers (broker w) (api_log w) request done = Some vs ->
    broker w (api_log w ++ map request done) (request sym) = Fails e ->
    each_symbol request idx (done ++ sym :: rest) res w
    = Raise e (logged_all (map request done ++ [request sym]) w).
Proof.
  induction done as [|d done IH]; intros idx res w vs sym rest e Hans Hfail.
  - simpl in *. rewrite app_nil_r in Hfail. unfold bind, api.
    rewrite Hfail. reflexivity.
  - simpl in Hans. simpl app. simpl each_symbol. unfold bind, api.
    destruct (broker w (api_log w) (request d)) as [v|e']; [|discriminate].
    destruct (answers (broker w) (api_log w ++ [request d]) request done)
      as [vs'|] eqn:Hrest; [|discriminate].
    rewrite (IH (S idx) (list_set idx v res)
               (mkWorld (broker w) (clock w) (api_log w ++ [request d])
                        (clock_reads w) (slept w)) vs' sym rest e Hrest).
    + unfold logged_all. simpl. now rewrite <- app_assoc.
    + simpl. rewrite <- app_assoc. exact Hfail.
Qed.

(** X16: when the broker raises on one symbol of a list, [subscribe_instrument]
    and [unsubscribe_instrument] raise the same exception: the symbols
    before it have been requested and stay so, the symbols after it are
    never requested, and the results gathered so far are lost. *)
Theorem subscription_fails_midway
  (done : list string) (sym : string) (rest : list string)
  (w : World) (e : Exn) :
  (forall vs,
      answers (broker w) (api_log w) api_subscribe_instrument done = Some vs ->
      broker w (api_log w ++ map api_subscribe_instrument done)
             (api_subscribe_instrument sym) = Fails e ->
      subscribe_instrument (Seq (done ++ sym :: rest)) w
      = Raise e (logged_all (map api_subscribe_instrument done
                             ++ [api_subscribe_instrument sym]) w))
  /\ (forall vs,
      answers (broker w) (api_log w) api_unsubscribe_instrument done = Some vs ->
      broker w (api_log w ++ map api_unsubscribe_instrument done)
             (api_unsubscribe_instrument sym) = Fails e ->
      unsubscribe_instrument (Seq (done ++ sym :: rest)) w
      = Raise e (logged_all (map api_unsubscribe_instrument done
                             ++ [api_unsubscribe_instrument sym]) w)).
Proof.
  split; intros vs Hans Hfail.
  - exact (each_symbol_fails api_subscribe_instrument done 0 _ w vs sym rest e
             Hans Hfail).
  - exact (each_symbol_fails api_unsubscribe_instrument done 0 _ w vs sym rest
             e Hans Hfail).
Qed.

Lemma subscription_fails_midway_witness :
  subscribe_instrument (Seq ["EUR/USD"; "XXX"; "GBP/USD"])
    (mkWorld (fun _ c => match c with
                         | api_subscribe_instrument "XXX" => Fails (BrokerError 7)
                         | _ => Gives (VBool true)
                         end)
             (fun _ => 0) [] 0 [])
  = Raise (BrokerError 7)
      (logged_all [api_subscribe_instrument "EUR/USD";
                   api_subscribe_instrument "XXX"]
         (mkWorld (fun _ c => match c with
                              | api_subscribe_instrument "XXX" =>
                                  Fails (BrokerError 7)
                              | _ => Gives (VBool true)
                              end)
                  (fun _ => 0) [] 0 [])).
Proof.
  exact (proj1 (subscription_fails_midway ["EUR/USD"] "XXX" ["GBP/USD"]
                  (mkWorld (fun _ c => match c with
                                       | api_subscribe_instrument "XXX" =>
                                           Fails (BrokerError 7)
                                       | _ => Gives (VBool true)
                                       end)
                           (fun _ => 0) [] 0 []) (BrokerError 7))
           [VBool true] eq_refl eq_refl).
Defined.

(** ** Market data *)

Lemma sent_more_nil w : sent_more [] w = w.
Proof. destruct w. unfold sent_more. simpl. now rewrite app_nil_r. Qed.

Lemma for_each_accepts request l :
  forall w, accepts (server w) (sent w) request l ->
    for_each request l w = Return tt (sent_more (map request l) w).
Proof.
  induction l as [|sym rest IH]; intros w Hacc.
  - simpl. now rewrite sent_more_nil.
  - simpl in Hacc. destruct Hacc as [[v Hv] Hrest].
    simpl for_each. unfold bind, ask. rewrite Hv.
    rewrite (IH (mkSession (server w) (sent w ++ [request sym])) Hrest).
    unfold sent_more. simpl. now rewrite <- app_assoc.
Qed.

Lemma for_each_fails request (done : list string) :
  forall w sym rest e,
    accepts (server w) (sent w) request done ->
    server w (sent w ++ map request done) (request sym) = inl e ->
    for_each request (done ++ sym :: rest) w
    = Raise e (sent_more (map request done ++ [request sym]) w).
Proof.
  induction done as [|d done IH]; intros w sym rest e Hacc Hfail.
  - simpl in *. rewrite app_nil_r in Hfail. unfold bind, ask.
    rewrite Hfail. reflexivity.
  - simpl in Hacc. destruct Hacc as [[v Hv] Hrest].
    simpl app. simpl for_each. unfold bind, ask. rewrite Hv.
    rewrite (IH (mkSession (server w) (sent w ++ [request d])) sym rest e Hrest).
    + unfold sent_more. simpl. now rewrite <- app_assoc.
    + simpl. rewrite <- app_assoc. exact Hfail.
Qed.

(** X17: given a list of symbols, [subscribe_market_data] and
    [unsubscribe_market_data] send one request per symbol in list order,
    each subscription with the same callbacks, and return when the broker
    accepts them all; when the broker raises on one symbol the call raises
    with the earlier symbols already requested and the later ones never
    requested. *)
Theorem market_data_per_symbol
  (callbacks : list string) (w : Session) :
  (forall l,
      accepts (server w) (sent w)
              (fun sym => api_subscribe_market_data sym callbacks) l ->
      subscribe_market_data (Seq l) callbacks w
      = Return tt
          (sent_more (map (fun sym => api_subscribe_market_data sym callbacks) l)
                     w))
  /\ (forall l,
      accepts (server w) (sent w) api_unsubscribe_market_data l ->
      unsubscribe_market_data (Seq l) w
      = Return tt (sent_more (map api_unsubscribe_market_data l) w))
  /\ (forall done sym rest e,
      accepts (server w) (sent w)
              (fun s => api_subscribe_market_data s callbacks) done ->
      server w (sent w ++ map (fun s => api_subscribe_market_data s callbacks)
                              done)
             (api_subscribe_market_data sym callbacks) = inl e ->
      subscribe_market_data (Seq (done ++ sym :: rest)) callbacks w
      = Raise e
          (sent_more (map (fun s => api_subscribe_market_data s callbacks) done
                      ++ [api_subscribe_market_data sym callbacks]) w)).
Proof.
  split; [|split].
  - intros l Hacc. now apply for_each_accepts.
  - intros l Hacc. now apply for_each_accepts.
  - intros done sym rest e Hacc Hfail.
    exact (for_each_fails _ done w sym rest e Hacc Hfail).
Qed.

Lemma market_data_per_symbol_witness :
  subscribe_market_data (Seq ["EUR/USD"; "GBP/USD"]) ["on_tick"] demo_session
  = Return tt
      (sent_more [api_subscribe_market_data "EUR/USD" ["on_tick"];
                  api_subscribe_market_data "GBP/USD" ["on_tick"]]
                 demo_session)
  /\ subscribe_market_data (Seq ["EUR/USD"; "XXX"; "GBP/USD"]) ["on_tick"]
       demo_session
     = Raise (BrokerError 7)
         (sent_more [api_subscribe_market_data "EUR/USD" ["on_tick"];
                     api_subscribe_market_data "XXX" ["on_tick"]]
                    demo_session).
Proof.
  destruct (market_data_per_symbol ["on_tick"] demo_session)
    as (Hsub & _ & Hfail).
  split.
  - apply (Hsub ["EUR/USD"; "GBP/USD"]). simpl. eauto.
  - apply (Hfail ["EUR/USD"] "XXX" ["GBP/USD"] (BrokerError 7)).
    + simpl. eauto.
    + reflexivity.
Defined.

(** ** [close_trade] *)

(** X18: [close_trade] reads ['currency'] and then ['tradeId'] from the position
    record: a record lacking one of them raises [KeyError] for it before
    anything is sent to the broker; otherwise exactly one close request
    goes out, for that trade id and with the given keyword arguments, and
    the broker's exception, if any, is passed on. *)
Theorem close_trade_requests_once
  (position : Kw) (portfolio : Portfolio) (close_args : Kw) (w : Session) :
  (position_get "currency" position = None ->
   close_trade position portfolio close_args w = Raise (KeyError "currency") w)
  /\ (forall currency,
      position_get "currency" position = Some currency ->
      position_get "tradeId" position = None ->
      close_trade position portfolio close_args w
      = Raise (KeyError "tradeId") w)
  /\ (forall currency trade_id,
      position_get "currency" position = Some currency ->
      position_get "tradeId" position = Some trade_id ->
      close_trade position portfolio close_args w
      = match server w (sent w) (api_close_trade trade_id close_args) with
        | inr _ =>
            Return tt (sent_more [api_close_trade trade_id close_args] w)
        | inl e => Raise e (sent_more [api_close_trade trade_id close_args] w)
        end).
Proof.
  unfold close_trade, bind, getitem_or_raise.
  split; [|split].
  - intros ->. reflexivity.
  - intros currency -> ->. reflexivity.
  - intros currency trade_id -> ->. unfold ret, ask, sent_more.
    destruct (server w (sent w) (api_close_trade trade_id close_args));
      reflexivity.
Qed.

Lemma close_trade_requests_once_witness :
  close_trade [("currency", AStr "EUR/USD"); ("tradeId", AInt 17)]
              (mkPortfolio 1 ["EUR/USD"] []) [] demo_session
  = Return tt (sent_more [api_close_trade (AInt 17) []] demo_session)
  /\ close_trade [("currency", AStr "EUR/USD")]
                 (mkPortfolio 1 ["EUR/USD"] []) [] demo_session
     = Raise (KeyError "tradeId") demo_session.
Proof.
  split.
  - exact (proj2 (proj2 (close_trade_requests_once
                           [("currency", AStr "EUR/USD"); ("tradeId", AInt 17)]
                           (mkPortfolio 1 ["EUR/USD"] []) [] demo_session))
             (AStr "EUR/USD") (AInt 17) eq_refl eq_refl).
  - exact (proj1 (proj2 (close_trade_requests_once
                           [("currency", AStr "EUR/USD")]
                           (mkPortfolio 1 ["EUR/USD"] []) [] demo_session))
             (AStr "EUR/USD") eq_refl eq_refl).
Defined.

(** ** [get_offers] *)

Lemma pick_map_filter {A : Type} (p : A -> bool) (l : list A) :
  pick (map p l) l = filter p l.
Proof.
  induction l as [|x l IH]; simpl; [reflexivity|].
  destruct (p x); now rewrite IH.
Qed.

Lemma field_select_rows c mask t :
  field c (fields (select_rows mask t))
  = option_map (pick mask) (field c (fields t)).
Proof.
  unfold select_rows. simpl.
  induction (fields t) as [|[n v] rest IH]; simpl; [reflexivity|].
  destruct (String.eqb c n); [reflexivity|exact IH].
Qed.

(** X19: with no selection, [get_offers()] is the broker's table as it came.
    With a list of symbols (and no column selection) the rows kept are
    those whose currency is in the list, in table order, every column cut
    by the same mask; a table without a ['currency'] column raises
    [KeyError] after the broker has been asked. *)
Theorem get_offers_filters_by_currency (table : Table) (w : Session) :
  server w (sent w) api_get_offers = inr (Offers table) ->
  get_offers SelNone SelNone w
  = Return (Offers table) (sent_more [api_get_offers] w)
  /\ (forall symbols currencies,
      field "currency" (fields table) = Some currencies ->
      exists kept,
        get_offers (SelList symbols) SelNone w
        = Return (Offers kept) (sent_more [api_get_offers] w)
        /\ field "currency" (fields kept)
           = Some (filter (cell_in symbols) currencies)
        /\ (forall cell, In cell (filter (cell_in symbols) currencies) ->
              exists s, cell = CStr s /\ In s symbols)
        /\ forall c,
             field c (fields kept)
             = option_map (pick (map (cell_in symbols) currencies))
                          (field c (fields table)))
  /\ (forall symbols,
      field "currency" (fields table) = None ->
      get_offers (SelList symbols) SelNone w
      = Raise (KeyError "currency") (sent_more [api_get_offers] w)).
Proof.
  intro Hreply. unfold get_offers, bind, ask. rewrite Hreply.
  split; [reflexivity|]. split.
  - intros symbols currencies Hcur. cbn [normalize as_table].
    unfold bind, ret, lift_exn, only_currencies. rewrite Hcur.
    eexists. split; [reflexivity|].
    assert (Hmask : isin symbols currencies = map (cell_in symbols) currencies)
      by reflexivity.
    rewrite Hmask. split.
    + rewrite field_select_rows, Hcur. simpl. now rewrite pick_map_filter.
    + split.
      * intros cell Hin. apply filter_In in Hin. destruct Hin as [_ Hc].
        destruct cell as [s|x]; [|discriminate].
        exists s. split; [reflexivity|]. now apply mem_In.
      * intro c. apply field_select_rows.
  - intros symbols Hnone. cbn [normalize as_table].
    unfold bind, ret, lift_exn, only_currencies. rewrite Hnone. reflexivity.
Qed.

Lemma get_offers_filters_by_currency_witness :
  exists kept,
    get_offers (SelList ["USD/JPY"; "EUR/USD"]) SelNone demo_session
    = Return (Offers kept) (sent_more [api_get_offers] demo_session)
    /\ field "currency" (fields kept) = Some [CStr "EUR/USD"; CStr "USD/JPY"].
Proof.
  destruct (proj1 (proj2 (get_offers_filters_by_currency demo_offers
                            demo_session eq_refl))
              ["USD/JPY"; "EUR/USD"]
              [CStr "EUR/USD"; CStr "GBP/USD"; CStr "USD/JPY"] eq_refl)
    as (kept & Hrun & Hcur & _).
  exists kept. split; [exact Hrun | exact Hcur].
Defined.

(** *** A comma-separated string is the list of its pieces *)

Lemma split_commas_nonempty s : split_commas s <> [].
Proof.
  induction s as [|c s IH]; simpl; [discriminate|].
  destruct (Ascii.eqb c ","); [discriminate|].
  destruct (split_commas s); [contradiction|discriminate].
Qed.

Lemma split_commas_piece s t :
  comma_free s ->
  split_commas (s ++ String "," t)%string = s :: split_commas t.
Proof.
  induction s as [|c s IH]; intro Hfree.
  - simpl. reflexivity.
  - destruct Hfree as [Hc Hs]. simpl.
    apply Ascii.eqb_neq in Hc. rewrite Hc. now rewrite (IH Hs).
Qed.

Lemma split_commas_single s : comma_free s -> split_commas s = [s].
Proof.
  induction s as [|c s IH]; intro Hfree; [reflexivity|].
  destruct Hfree as [Hc Hs]. simpl.
  apply Ascii.eqb_neq in Hc. rewrite Hc. now rewrite (IH Hs).
Qed.

Lemma split_commas_concat l :
  l <> [] -> Forall comma_free l -> split_commas (String.concat "," l) = l.
Proof.
  induction l as [|s l IH]; intros Hne Hall; [congruence|].
  apply Forall_cons_iff in Hall. destruct Hall as [Hs Hl].
  destruct l as [|t l].
  - simpl. now apply split_commas_single.
  - change (String.concat "," (s :: t :: l))
      with (s ++ String "," (String.concat "," (t :: l)))%string.
    rewrite split_commas_piece by exact Hs.
    now rewrite IH.
Qed.

(** X20: for symbols and columns free of commas, passing the comma-joined
    string to [get_offers] is passing the list: both arguments accept
    either form, with the same outcome. *)
Theorem get_offers_string_is_list
  (symbols columns : list string) (w : Session) :
  symbols <> [] -> Forall comma_free symbols ->
  columns <> [] -> Forall comma_free columns ->
  get_offers (SelStr (String.concat "," symbols))
             (SelStr (String.concat "," columns)) w
  = get_offers (SelList symbols) (SelList columns) w
  /\ get_offers (SelStr (String.concat "," symbols)) SelNone w
     = get_offers (SelList symbols) SelNone w.
Proof.
  intros Hs Hsf Hc Hcf. unfold get_offers. cbn [normalize].
  rewrite (split_commas_concat symbols Hs Hsf),
    (split_commas_concat columns Hc Hcf). split; reflexivity.
Qed.

Lemma get_offers_string_is_list_witness :
  get_offers (SelStr "EUR/USD,GBP/USD") (SelStr "bid,ask") demo_session
  = get_offers (SelList ["EUR/USD"; "GBP/USD"]) (SelList ["bid"; "ask"])
      demo_session.
Proof.
  refine (proj1 (get_offers_string_is_list ["EUR/USD"; "GBP/USD"]
                   ["bid"; "ask"] demo_session _ _ _ _)).
  - discriminate.
  - repeat constructor; intro H; discriminate H.
  - discriminate.
  - repeat constructor; intro H; discriminate H.
Defined.

(** *** Selecting columns *)

Lemma project_found names fs :
  Forall (fun n => field n fs <> None) names ->
  exists picked,
    project names fs = inr picked
    /\ map fst picked = names
    /\ forall n, In n names -> field n picked = field n fs.
Proof.
  induction names as [|n rest IH]; intro Hall.
  - exists []. simpl. repeat split. intros n [].
  - apply Forall_cons_iff in Hall. destruct Hall as [Hn Hrest].
    destruct (IH Hrest) as (picked & Hp & Hnames & Hfields).
    simpl. destruct (field n fs) as [v|] eqn:Hv; [|congruence].
    rewrite Hp. exists ((n, v) :: picked).
    split; [reflexivity|]. split; [simpl; now rewrite Hnames|].
    intros m Hm. simpl. destruct (String.eqb m n) eqn:E.
    + apply String.eqb_eq in E. subst m. now rewrite Hv.
    + destruct Hm as [->|Hm]; [now rewrite String.eqb_refl in E|].
      now apply Hfields.
Qed.

Lemma project_missing names fs n :
  In n names -> field n fs = None -> exists m, project names fs = inl (KeyError m)
                                               /\ field m fs = None.
Proof.
  induction names as [|x rest IH]; intros Hin Hnone; [destruct Hin|].
  simpl. destruct (field x fs) as [v|] eqn:Hx.
  - destruct Hin as [->|Hin]; [congruence|].
    destruct (IH Hin Hnone) as (m & -> & Hm). eauto.
  - eauto.
Qed.

(** X21: a column selection on the whole table: when every asked column exists
    the result has exactly the asked columns, in the order asked, each with
    its data and all rows; when one is missing the call raises [KeyError]
    for a missing column, after the broker has been asked. *)
Theorem get_offers_projects_columns
  (table : Table) (columns : list string) (w : Session) :
  server w (sent w) api_get_offers = inr (Offers table) ->
  (Forall (fun n => field n (fields table) <> None) columns ->
   exists kept,
     get_offers SelNone (SelList columns) w
     = Return (Offers kept) (sent_more [api_get_offers] w)
     /\ map fst (fields kept) = columns
     /\ row_labels kept = row_labels table
     /\ forall n, In n columns ->
          field n (fields kept) = field n (fields table))
  /\ (forall n, In n columns -> field n (fields table) = None ->
      exists m,
        get_offers SelNone (SelList columns) w
        = Raise (KeyError m) (sent_more [api_get_offers] w)
        /\ field m (fields table) = None).
Proof.
  intro Hreply. unfold get_offers, bind, ask. rewrite Hreply.
  cbv beta iota zeta delta [normalize as_table ret lift_exn select_columns].
  split.
  - intro Hall.
    destruct (project_found columns (fields table) Hall)
      as (picked & Hp & Hnames & Hfields).
    rewrite Hp. eexists. split; [reflexivity|]. simpl. auto.
  - intros n Hin Hnone.
    destruct (project_missing columns (fields table) n Hin Hnone)
      as (m & Hp & Hm).
    rewrite Hp. exists m. split; [reflexivity | exact Hm].
Qed.

Lemma get_offers_projects_columns_witness :
  exists kept,
    get_offers SelNone (SelList ["ask"; "bid"]) demo_session
    = Return (Offers kept) (sent_more [api_get_offers] demo_session)
    /\ map fst (fields kept) = ["ask"; "bid"].
Proof.
  destruct (proj1 (get_offers_projects_columns demo_offers ["ask"; "bid"]
                     demo_session eq_refl)) as (kept & Hrun & Hnames & _).
  - repeat constructor; discriminate.
  - exists kept. split; [exact Hrun | exact Hnames].
Defined.

(** ** [get_last_bar] *)

Lemma lookup_renamed (mapping : list (string * string)) old new cols :
  rename_label mapping old = new ->
  (forall n, rename_label mapping n = new -> n = old \/ n = new) ->
  (old = new \/ mem new (map fst cols) = false) ->
  lookup new (map (fun c => (rename_label mapping (fst c), snd c)) cols)
  = lookup old cols.
Proof.
  intros Hold Honly Habsent.
  induction cols as [|[n v] rest IH]; [reflexivity|].
  simpl. destruct (String.eqb new (rename_label mapping n)) eqn:E.
  - apply String.eqb_eq in E. symmetry in E.
    destruct (Honly n E) as [->| ->].
    + now rewrite String.eqb_refl.
    + destruct Habsent as [->|Habs]; [now rewrite String.eqb_refl|].
      simpl in Habs. now rewrite String.eqb_refl in Habs.
  - destruct (String.eqb old n) eqn:E'.
    + apply String.eqb_eq in E'. subst n. rewrite Hold in E.
      now rewrite String.eqb_refl in E.
    + apply IH. destruct Habsent as [H|H]; [now left|right].
      simpl in H. apply orb_false_iff in H. exact (proj2 H).
Qed.

Ltac rename_cases n :=
  unfold rename_label, bar_columns;
  destruct (String.eqb n "bidopen") eqn:E1;
    [apply String.eqb_eq in E1; subst n|];
  [|destruct (String.eqb n "bidclose") eqn:E2;
    [apply String.eqb_eq in E2; subst n|];
  [|destruct (String.eqb n "bidhigh") eqn:E3;
    [apply String.eqb_eq in E3; subst n|];
  [|destruct (String.eqb n "bidlow") eqn:E4;
    [apply String.eqb_eq in E4; subst n|];
  [|destruct (String.eqb n "tickqty") eqn:E5;
    [apply String.eqb_eq in E5; subst n|]]]]].

Lemma bar_columns_only old new :
  In (old, new) bar_columns ->
  rename_label bar_columns old = new
  /\ forall n, rename_label bar_columns n = new -> n = old \/ n = new.
Proof.
  intros [H|[H|[H|[H|[H|[]]]]]]; injection H as <- <-;
    (split; [reflexivity|]); intro n; rename_cases n; intro H;
    try discriminate H; auto.
Qed.

Lemma bar_columns_other c :
  mem c (map fst bar_columns) = false ->
  mem c (map snd bar_columns) = false ->
  rename_label bar_columns c = c
  /\ forall n, rename_label bar_columns n = c -> n = c \/ n = c.
Proof.
  intros Hk Hv. split.
  - rename_cases c; try discriminate Hk; reflexivity.
  - intro n. rename_cases n; intro H; subst c; try discriminate Hv; auto.
Qed.

Lemma getitem_renamed_bar old new raw :
  In (old, new) bar_columns ->
  has_column new raw = false ->
  getitem new (rename_columns bar_columns raw) = getitem old raw.
Proof.
  intros Hin Habs. destruct (bar_columns_only old new Hin) as [Hold Honly].
  apply (lookup_renamed bar_columns old new (Pandas.columns raw) Hold Honly).
  right. exact Habs.
Qed.

(** X22: [get_last_bar] asks the broker once and hands back its candles with
    the five bid columns renamed: the rows and their order are the
    broker's; ['open'], ['close'], ['high'], ['low'] and ['volume'] carry the
    data of ['bidopen'], ['bidclose'], ['bidhigh'], ['bidlow'] and
    ['tickqty'] (when the broker's frame has no column of the new name
    already), and every other column keeps its name and data. *)
Theorem get_last_bar_renames
  (symbol : string) (n : Z) (columns : list string) (period : string)
  (raw : DataFrame) (w : Session) :
  server w (sent w) (get_candles symbol period n columns) = inr (Candles raw) ->
  exists bars,
    get_last_bar symbol n columns period w
    = Return bars (sent_more [get_candles symbol period n columns] w)
    /\ index bars = index raw
    /\ (forall old new,
          In (old, new) bar_columns ->
          has_column new raw = false ->
          getitem new bars = getitem old raw)
    /\ (forall c,
          mem c (map fst bar_columns) = false ->
          mem c (map snd bar_columns) = false ->
          getitem c bars = getitem c raw).
Proof.
  intro Hreply. exists (rename_columns bar_columns raw).
  split; [unfold get_last_bar, bind, ask; rewrite Hreply; reflexivity|].
  split; [reflexivity|]. split.
  - intros old new Hin Habs. now apply getitem_renamed_bar.
  - intros c Hk Hv. destruct (bar_columns_other c Hk Hv) as [Hold Honly].
    apply (lookup_renamed bar_columns c c (Pandas.columns raw) Hold Honly).
    now left.
Qed.

Lemma get_last_bar_renames_witness :
  exists bars,
    get_last_bar "EUR/USD" 3 ["bids"; "tickqty"] "m1" demo_session
    = Return bars
        (sent_more [get_candles "EUR/USD" "m1" 3 ["bids"; "tickqty"]]
                   demo_session)
    /\ getitem "close" bars = Some [2; 3; 4]%float.
Proof.
  destruct (get_last_bar_renames "EUR/USD" 3 ["bids"; "tickqty"] "m1"
              demo_candles demo_session eq_refl)
    as (bars & Hrun & _ & Hren & _).
  exists bars. split; [exact Hrun|].
  rewrite (Hren "bidclose" "close"); [reflexivity | simpl; auto | reflexivity].
Defined.

(** ** From the broker's candles to an indicator *)

Lemma empty_rename_columns mapping d :
  empty (rename_columns mapping d) = empty d.
Proof.
  unfold empty, rename_columns. simpl.
  destruct (index d); [reflexivity|]. now destruct (Pandas.columns d).
Qed.

(** X23: the data flow of the robot: candles fetched with [get_last_bar] and
    added to a fresh buffer that can hold them make [macd] compute, and the
    ['macd'] column is the MACD of the broker's ['bidclose'] prices, one
    value per candle. *)
Theorem candles_feed_macd
  (symbol period name : string) (n : Z) (columns : list string)
  (raw : DataFrame) (prices : Series) (w : Session)
  (capacity fast slow macd_period : Z) :
  server w (sent w) (get_candles symbol period n columns) = inr (Candles raw) ->
  empty raw = false ->
  has_column "close" raw = false ->
  getitem "bidclose" raw = Some prices ->
  Z.of_nat (len raw) <= capacity ->
  1 <= fast -> 1 <= slow -> 1 <= macd_period ->
  exists bars fast_ema slow_ema signal fc,
    get_last_bar symbol n columns period w
    = Return bars (sent_more [get_candles symbol period n columns] w)
    /\ register (MacdArgs fast slow macd_period name)
                (add_rows bars (init capacity)) = Return tt fc
    /\ index (df fc) = index raw
    /\ getitem "macd" (df fc) = Some signal
    /\ ewm_mean fast fast prices = inr fast_ema
    /\ ewm_mean slow slow prices = inr slow_ema
    /\ ewm_mean macd_period macd_period (s_sub fast_ema slow_ema) = inr signal
    /\ List.length signal = List.length prices.
Proof.
  intros Hreply Hne Hnoclose Hprices Hfit Hfast Hslow Hperiod.
  set (bars := rename_columns bar_columns raw).
  assert (Hrun : get_last_bar symbol n columns period w
                 = Return bars
                     (sent_more [get_candles symbol period n columns] w))
    by (unfold get_last_bar, bind, ask; rewrite Hreply; reflexivity).
  assert (Hix : index bars = index raw) by reflexivity.
  assert (Hbars : bars = rename_columns bar_columns raw) by reflexivity.
  assert (Hclose : getitem "close" bars = Some prices).
  { unfold bars. rewrite (getitem_renamed_bar "bidclose" "close");
      [exact Hprices | simpl; auto | exact Hnoclose]. }
  destruct (ewm_mean_valid fast fast prices Hfast) as [f Hf].
  destruct (ewm_mean_valid slow slow prices Hslow) as [sl Hsl].
  destruct (ewm_mean_valid macd_period macd_period (s_sub f sl) Hperiod)
    as [m Hm].
  assert (Hdf : df (add_rows bars (init capacity)) = bars).
  { rewrite (add_rows_new_frame bars (init capacity) eq_refl).
    simpl max_size. replace (Z.to_nat _) with 0%nat; [apply iloc_from_0|].
    unfold len in *. rewrite Hix. lia. }
  assert (Hne' : empty (df (add_rows bars (init capacity))) = false).
  { rewrite Hdf, Hbars, empty_rename_columns. exact Hne. }
  assert (Hseries : series_of (MacdArgs fast slow macd_period name)
                      (df (add_rows bars (init capacity))) = Some m).
  { rewrite Hdf. simpl. unfold macd_series. now rewrite Hclose, Hf, Hsl, Hm. }
  exists bars, f, sl, m. eexists.
  split; [exact Hrun|].
  split; [exact (register_computes _ _ m Hne' Hseries)|].
  cbn [registered df]. rewrite Hdf.
  split; [exact Hix|]. split; [apply getitem_setitem_eq|].
  split; [exact Hf|]. split; [exact Hsl|]. split; [exact Hm|].
  rewrite (length_ewm_mean _ _ _ _ Hm). unfold s_sub.
  rewrite length_zip_with, (length_ewm_mean _ _ _ _ Hf),
    (length_ewm_mean _ _ _ _ Hsl). lia.
Qed.

Lemma candles_feed_macd_witness :
  exists bars signal fc,
    get_last_bar "EUR/USD" 3 ["bids"; "tickqty"] "m1" demo_session
    = Return bars
        (sent_more [get_candles "EUR/USD" "m1" 3 ["bids"; "tickqty"]]
                   demo_session)
    /\ register (MacdArgs 2 3 2 "macd") (add_rows bars (init 1000))
       = Return tt fc
    /\ getitem "macd" (df fc) = Some signal
    /\ List.length signal = 3%nat.
Proof.
  destruct (candles_feed_macd "EUR/USD" "m1" "macd" 3 ["bids"; "tickqty"]
              demo_candles [2; 3; 4]%float demo_session 1000 2 3 2
              eq_refl eq_refl eq_refl eq_refl
              ltac:(simpl; lia) ltac:(lia) ltac:(lia) ltac:(lia))
    as (bars & f & sl & m & fc & Hrun & Hreg & _ & Hcol & _ & _ & _ & Hlen).
  exists bars, m, fc. repeat split; assumption.
Defined.

(** ** Subscriptions given as a list *)

(** X15: given a list of symbols that the broker all accepts,
    [subscribe_instrument] and [unsubscribe_instrument] make one request
    per symbol in list order and return the broker's results in that same
    order, as many as there are symbols. *)
Theorem instrument_subscriptions_per_symbol (l : list string) (w : World) :
  (forall vs,
      answers (broker w) (api_log w) api_subscribe_instrument l = Some vs ->
      subscribe_instrument (Seq l) w
      = Return vs (logged_all (map api_subscribe_instrument l) w)
      /\ List.length vs = List.length l)
  /\ (forall vs,
      answers (broker w) (api_log w) api_unsubscribe_instrument l = Some vs ->
      unsubscribe_instrument (Seq l) w
      = Return vs (logged_all (map api_unsubscribe_instrument l) w)
      /\ List.length vs = List.length l).
Proof.
  assert (Hlen : forall request log vs,
             answers (broker w) log request l = Some vs ->
             List.length vs = List.length l).
  { intros request. induction l as [|sym rest IH]; intros log vs H.
    - injection H as <-. reflexivity.
    - simpl in H. destruct (broker w log (request sym)); [|discriminate].
      destruct (answers (broker w) (log ++ [request sym]) request rest)
        as [vs'|] eqn:E; [|discriminate].
      injection H as <-. simpl. f_equal. exact (IH _ _ E). }
  split; intros vs H; (split; [|exact (Hlen _ _ _ H)]).
  - exact (each_symbol_answers api_subscribe_instrument l [] w vs H).
  - exact (each_symbol_answers api_unsubscribe_instrument l [] w vs H).
Qed.

Lemma instrument_subscriptions_per_symbol_witness :
  subscribe_instrument (Seq ["EUR/USD"; "GBP/USD"]) demo_world
  = Return [VBool true; VBool true]
      (logged_all [api_subscribe_instrument "EUR/USD";
                   api_subscribe_instrument "GBP/USD"] demo_world).
Proof.
  exact (proj1 (proj1 (instrument_subscriptions_per_symbol
                         ["EUR/USD"; "GBP/USD"] demo_world)
                  [VBool true; VBool true] eq_refl)).
Defined.

(** ** Indicator columns are as long as the index *)

Lemma frame_ok_setitem c s d :
  frame_ok d -> List.length s = len d -> frame_ok (setitem c s d).
Proof.
  unfold frame_ok, setitem, len. simpl. intros Hd Hs.
  induction (Pandas.columns d) as [|[n v] rest IH]; simpl.
  - repeat constructor. exact Hs.
  - apply Forall_cons_iff in Hd. destruct Hd as [Hv Hrest].
    destruct (String.eqb c n); constructor; auto.
Qed.

Lemma frame_ok_without labels d : frame_ok d -> frame_ok (without labels d).
Proof.
  unfold frame_ok, without, len. simpl. intro Hd.
  apply Forall_forall. intros x Hx. apply filter_In in Hx.
  rewrite Forall_forall in Hd. exact (Hd x (proj1 Hx)).
Qed.

Lemma register_keeps_frame_ok a fc st :
  frame_ok (df fc) -> register a fc = Return tt st -> frame_ok (df st).
Proof.
  intros Hok Hrun. destruct (empty (df fc)) eqn:He.
  - rewrite (register_on_empty a fc He) in Hrun. injection Hrun as <-.
    exact Hok.
  - destruct (series_of a (df fc)) as [s|] eqn:Hs.
    + rewrite (register_computes a fc s He Hs) in Hrun. injection Hrun as <-.
      cbn [registered df]. apply frame_ok_setitem.
      * now apply frame_ok_without.
      * exact (series_of_length a (df fc) s Hok Hs).
    + destruct (register_raises a fc He Hs) as (e & st' & Hr).
      rewrite Hr in Hrun. discriminate Hrun.
Qed.

Lemma call_all_keeps_frame_ok (entries : list (string * Indicator)) :
  Forall entry_ok entries ->
  forall fc st,
    frame_ok (df fc) -> call_all (map snd entries) fc = Return tt st ->
    frame_ok (df st).
Proof.
  induction 1 as [|[k ind] rest Hentry _ IH]; intros fc st Hok Hrun.
  - injection Hrun as <-. exact Hok.
  - simpl in Hrun. unfold bind in Hrun.
    destruct (call_entry k ind Hentry) as (Hcall & _ & _).
    destruct (call ind fc) as [[] st1|e st1] eqn:E; [|discriminate].
    rewrite Hcall in E.
    exact (IH st1 st (register_keeps_frame_ok _ _ _ Hok E) Hrun).
Qed.

(** X12: a registration call or an [update] that returns leaves a rectangular
    frame rectangular: every indicator column written has one value per
    bar. *)
Theorem indicators_keep_frame_ok (fc st : FrameClient) :
  frame_ok (df fc) ->
  (forall a, register a fc = Return tt st -> frame_ok (df st))
  /\ (registry_ok (indicators fc) ->
      update fc = Return tt st -> frame_ok (df st)).
Proof.
  intro Hok. split.
  - intros a Hrun. exact (register_keeps_frame_ok a fc st Hok Hrun).
  - intros Hreg Hrun. rewrite (update_call_all fc Hreg) in Hrun.
    exact (call_all_keeps_frame_ok _ (proj2 Hreg) fc st Hok Hrun).
Qed.

Lemma indicators_keep_frame_ok_witness :
  frame_ok (df (state_of (register (AtrArgs 2 "atr") demo_buffer))).
Proof.
  refine (proj1 (indicators_keep_frame_ok demo_buffer
                   (state_of (register (AtrArgs 2 "atr") demo_buffer)) _)
            (AtrArgs 2 "atr") _).
  - repeat constructor.
  - vm_compute. reflexivity.
Defined.
